(** * transport/ServiceManagement.cpp: registry client, library scanner,
      passthrough resolver and notification waiter.

    The operating system, the dynamic loader and the hwbinder transport are
    external to the file; they appear here as oracles (records of functions)
    and every call the code makes to them is recorded in a trace of events,
    in program order. *)

From Stdlib Require Import String List Bool Arith Lia.
Import ListNotations.
Local Open Scope string_scope.
Local Open Scope list_scope.

(** ** Events and the trace monad *)

Inductive Severity := WARNING | ERROR | FATAL.

Definition RegistryHandle := nat.
Definition LibHandle := nat.
Definition IBase := nat.

(** The two locks of the file: the global one that guards the cached
    registry handle and the one inside each Waiter. *)
Inductive Mutex := gDefaultServiceManagerLock | mMutex.

Inductive Event :=
| EvLog (sev : Severity) (msg : string)
| EvAccess (path : string)
| EvLock (m : Mutex)
| EvUnlock (m : Mutex)
| EvNotifyOne
| EvGetContextObject (attempt : nat)
| EvSleep (seconds : nat)
| EvOpendir (path : string)
| EvDlopen (path : string)
| EvDlsym (handle : LibHandle) (sym : string)
| EvInvoke (handle : LibHandle) (sym : string) (arg : string)
| EvRegisterForNotifications (manager : RegistryHandle) (fqName name : string)
| EvCondWait.

Definition Trace := list Event.

(** A computation returns a value together with the events it performed. *)
Definition M (A : Type) : Type := A * Trace.

Definition ret {A} (a : A) : M A := (a, []).

Definition bind {A B} (c : M A) (k : A -> M B) : M B :=
  let (a, t1) := c in
  let (b, t2) := k a in
  (b, t1 ++ t2).

Definition emit (e : Event) : M unit := (tt, [e]).

Definition LOG (sev : Severity) (msg : string) : M unit := emit (EvLog sev msg).

Declare Scope m_scope.
Delimit Scope m_scope with M.
Notation "x <- c ;; k" := (bind c (fun x => k))
  (at level 61, c at next level, right associativity) : m_scope.

(** Projections of a trace onto the calls of one kind. *)
Definition opendirs (t : Trace) : list string :=
  flat_map (fun e => match e with EvOpendir p => [p] | _ => [] end) t.

Definition dlopens (t : Trace) : list string :=
  flat_map (fun e => match e with EvDlopen p => [p] | _ => [] end) t.

Definition is_fs_event (e : Event) : bool :=
  match e with
  | EvOpendir _ | EvDlopen _ | EvDlsym _ _ | EvInvoke _ _ _ | EvAccess _ => true
  | _ => false
  end.

(** ** StringHelper (hidl-util) *)

Module StringHelper.

(** Modelled from the spec: StringHelper::StartsWith lives in hidl-util, not
    in this file; an entry "starts with prefix" when its first
    [length prefix] characters are the prefix. *)
Definition StartsWith (s prefix : string) : bool :=
  Nat.leb (String.length prefix) (String.length s) &&
  String.eqb (substring 0 (String.length prefix) s) prefix.

(** Modelled from the spec: StringHelper::EndsWith lives in hidl-util; an
    entry "ends with suffix" when its last [length suffix] characters are the
    suffix. *)
Definition EndsWith (s suffix : string) : bool :=
  Nat.leb (String.length suffix) (String.length s) &&
  String.eqb
    (substring (String.length s - String.length suffix) (String.length suffix) s)
    suffix.

(** Modelled from the spec: StringHelper::JoinStrings (hidl-util), used only
    to print the candidates in a warning. *)
Definition JoinStrings (components : list string) (separator : string) : string :=
  String.concat separator components.

End StringHelper.

(** ** Directory entries and the loader *)

Record dirent := { d_name : string; d_is_dir : bool }.

(** The factory: a nullable function pointer from the instance name to a
    nullable IBase pointer. *)
Definition Generator := string -> option IBase.

Record Loader := {
  (** opendir followed by readdir until it returns nullptr: [None] when the
      directory cannot be opened, else the entries in iteration order. *)
  opendir : string -> option (list dirent);
  (** dlopen(path, RTLD_LAZY): [None] is a null handle. *)
  dlopen : string -> option LibHandle;
  (** dlsym(handle, sym): [None] is a null pointer. *)
  dlsym : LibHandle -> string -> option Generator
}.

(** ** search *)

Section Search.
Variable ld : Loader.

(** The readdir loop: [results.push_back(name)] for each matching entry. *)
Fixpoint readdir_loop (prefix suffix : string) (stream : list dirent)
         (results : list string) : list string :=
  match stream with
  | [] => results
  | dp :: rest =>
      let name := d_name dp in
      if StringHelper.StartsWith name prefix && StringHelper.EndsWith name suffix
      then readdir_loop prefix suffix rest (results ++ [name])
      else readdir_loop prefix suffix rest results
  end.

Definition search (path prefix suffix : string) : M (list string) :=
  (_ <- emit (EvOpendir path) ;;
   match opendir ld path with
   | None => ret []
   | Some stream => ret (readdir_loop prefix suffix stream [])
   end)%M.

(** What the specification says scan returns for an openable directory. *)
Definition scan_spec (prefix suffix : string) (entries : list dirent) : list string :=
  filter (fun name => StringHelper.StartsWith name prefix &&
                      StringHelper.EndsWith name suffix)
         (map d_name entries).
End Search.

(** ** FQName (hidl-util), consumed through its accessors only *)

Module FQName.
Record t := {
  isValid : bool;
  isFullyQualified : bool;
  isIdentifier : bool;
  (** getPackageAndVersion().string() *)
  getPackageAndVersion : string;
  name : string
}.
End FQName.

(** ** A process that LOG(FATAL) can abort *)

Inductive Outcome (A : Type) :=
| Returned (a : A)
| Aborted.
Arguments Returned {A} a.
Arguments Aborted {A}.

Definition retO {A} (a : A) : M (Outcome A) := (Returned a, []).

Definition bindO {A B} (c : M (Outcome A)) (k : A -> M (Outcome B)) : M (Outcome B) :=
  match c with
  | (Returned a, t1) => let (b, t2) := k a in (b, t1 ++ t2)
  | (Aborted, t1) => (Aborted, t1)
  end.

(** LOG(FATAL) of android-base writes the message and aborts the process. *)
Definition LOG_FATAL (msg : string) : M (Outcome unit) :=
  (Aborted, [EvLog FATAL msg]).

(** ** PassthroughServiceManager *)

Definition IServiceNotification := nat.

Module PassthroughServiceManager.
Section Passthrough.
Variable ld : Loader.
(** The constructor FQName(fqName) of hidl-util. *)
Variable mkFQName : string -> FQName.t.
(** Build-configured search roots. *)
Variables HAL_LIBRARY_PATH_ODM HAL_LIBRARY_PATH_VENDOR HAL_LIBRARY_PATH_SYSTEM : string.

Definition hal_library_paths : list string :=
  [HAL_LIBRARY_PATH_ODM; HAL_LIBRARY_PATH_VENDOR; HAL_LIBRARY_PATH_SYSTEM].

(** for (lib : libs) { handle = dlopen(path + lib); if (handle) goto beginLookup; }
    [Some (handle, library)] is the jump to beginLookup. *)
Fixpoint try_libs (path : string) (libs : list string) : M (option (LibHandle * string)) :=
  match libs with
  | [] => ret None
  | lib :: rest =>
      (_ <- emit (EvDlopen (path ++ lib)%string) ;;
       match dlopen ld (path ++ lib)%string with
       | Some handle => ret (Some (handle, lib))
       | None => try_libs path rest
       end)%M
  end.

(** for (path : {ODM, VENDOR, SYSTEM}) { search; warn; inner loop } *)
Fixpoint try_paths (iface : FQName.t) (paths : list string)
  : M (option (LibHandle * string)) :=
  match paths with
  | [] => ret None
  | path :: rest =>
      let prefix := (FQName.getPackageAndVersion iface ++ "-impl")%string in
      (libs <- search ld path prefix ".so" ;;
       _ <- (if Nat.ltb 1 (List.length libs)
             then LOG WARNING ("Multiple libraries found: " ++
                               StringHelper.JoinStrings libs ", ")%string
             else ret tt) ;;
       r <- try_libs path libs ;;
       match r with
       | Some found => ret (Some found)
       | None => try_paths iface rest
       end)%M
  end.

(** The code from beginLookup on. *)
Definition beginLookup (iface : FQName.t) (name : string)
           (handle : LibHandle) (library : string) : M (option IBase) :=
  let sym := ("HIDL_FETCH_" ++ FQName.name iface)%string in
  (_ <- emit (EvDlsym handle sym) ;;
   match dlsym ld handle sym with
   | None =>
       _ <- LOG ERROR ("Passthrough lookup opened " ++ library ++
                       " but could not find symbol " ++ sym)%string ;;
       ret None
   | Some generator =>
       _ <- emit (EvInvoke handle sym name) ;;
       ret (generator name)
   end)%M.

Definition get (fqName name : string) : M (option IBase) :=
  let iface := mkFQName fqName in
  if negb (FQName.isValid iface) || negb (FQName.isFullyQualified iface)
     || FQName.isIdentifier iface
  then
    (_ <- LOG ERROR ("Invalid interface name passthrough lookup: " ++ fqName)%string ;;
     ret None)%M
  else
    (r <- try_paths iface hal_library_paths ;;
     match r with
     | None => ret None            (* handle == nullptr after the loops *)
     | Some (handle, library) => beginLookup iface name handle library
     end)%M.

Definition add (interfaceChain : list string) (name : string)
           (service : option IBase) : M (Outcome bool) :=
  bindO (LOG_FATAL "Cannot register services with passthrough service manager.")
        (fun _ => retO false).

Definition listByInterface (fqInstanceName : string)
           (_hidl_cb : list string -> unit) : M (Outcome unit) :=
  bindO (LOG_FATAL "Cannot list services with passthrough service manager.")
        (fun _ => retO tt).

Definition registerForNotifications (fqName name : string)
           (callback : option IServiceNotification) : M (Outcome bool) :=
  bindO (LOG_FATAL
           "Cannot register for notifications with passthrough service manager.")
        (fun _ => retO false).

Definition list (_hidl_cb : Datatypes.list string -> unit) : M (Outcome unit) :=
  bindO (LOG_FATAL "Cannot list services with passthrough service manager.")
        (fun _ => retO tt).
End Passthrough.
End PassthroughServiceManager.

(** ** The hwbinder transport *)

(** Return<T>: the value of a remote call, or a transport-level failure. *)
Inductive Return (A : Type) :=
| Ok (a : A)
| TransportError (description : string).
Arguments Ok {A} a.
Arguments TransportError {A} description.

Record Transport := {
  (** access(path, F_OK|R_OK|W_OK) == 0 *)
  access : string -> bool;
  (** fromBinder(ProcessState::self()->getContextObject(NULL)) at the k-th
      attempt of the process; [None] is NULL. *)
  getContextObject : nat -> option RegistryHandle;
  (** The remote call manager->registerForNotifications(fqName, name, waiter). *)
  remote_registerForNotifications : RegistryHandle -> string -> string -> Return bool
}.

(** ** defaultServiceManager *)

Section Registry.
Variable tr : Transport.

(** while (gDefaultServiceManager == NULL) { lookup; if (NULL) sleep(1); }
    The loop has no bound in the source; [fuel] bounds the number of
    iterations the model runs, and [None] means the fuel ran out. *)
Fixpoint retry_loop (fuel attempt : nat) (g : option RegistryHandle)
  : option (M (option RegistryHandle)) :=
  match g with
  | Some _ => Some (ret g)
  | None =>
      match fuel with
      | 0 => None
      | S fuel' =>
          let g' := getContextObject tr attempt in
          match retry_loop fuel' (S attempt) g' with
          | None => None
          | Some rest =>
              Some (_ <- emit (EvGetContextObject attempt) ;;
                    _ <- (match g' with
                          | None => emit (EvSleep 1)
                          | Some _ => ret tt
                          end) ;;
                    rest)%M
          end
      end
  end.

(** Takes the cached global and returns the result with the new global. *)
Definition defaultServiceManager (fuel : nat) (gDefaultServiceManager : option RegistryHandle)
  : option (M (option RegistryHandle * option RegistryHandle)) :=
  match gDefaultServiceManager with
  | Some _ => Some (ret (gDefaultServiceManager, gDefaultServiceManager))
  | None =>
      if negb (access tr "/dev/hwbinder")
      then Some (_ <- emit (EvAccess "/dev/hwbinder") ;;
                 ret (None, gDefaultServiceManager))%M
      else
        match retry_loop fuel 0 gDefaultServiceManager with
        | None => None
        | Some loop =>
            Some (_ <- emit (EvAccess "/dev/hwbinder") ;;
                  _ <- emit (EvLock gDefaultServiceManagerLock) ;;
                  g <- loop ;;
                  _ <- emit (EvUnlock gDefaultServiceManagerLock) ;;
                  ret (g, g))%M
        end
  end.
End Registry.

(** ** details::Waiter *)

Module Waiter.
Record t := { mRegistered : bool }.

(** bool mRegistered = false; *)
Definition new : t := {| mRegistered := false |}.

(** The state after the transition. *)
Definition registered : t := {| mRegistered := true |}.

Definition onRegistration (fqName name : string) (preexisting : bool) (w : t) : M t :=
  (_ <- emit (EvLock mMutex) ;;
   if mRegistered w
   then
     _ <- emit (EvUnlock mMutex) ;;
     ret w
   else
     let w' := {| mRegistered := true |} in
     _ <- emit (EvUnlock mMutex) ;;
     _ <- emit EvNotifyOne ;;
     ret w')%M.

(** What can happen to a waiter while its owner sleeps on the condition
    variable: the registry's callback runs on a transport thread, or the
    condition variable wakes up spuriously. *)
Inductive SchedEvent :=
| Notification (fqName name : string) (preexisting : bool)
| SpuriousWakeup.

(** The schedule event [ev] runs on its own thread; its events are recorded
    in the same trace. *)
Definition deliver (ev : SchedEvent) (w : t) : M t :=
  match ev with
  | Notification fqName name preexisting => onRegistration fqName name preexisting w
  | SpuriousWakeup => ret w
  end.

Fixpoint deliver_all (evs : list SchedEvent) (w : t) : M t :=
  match evs with
  | [] => ret w
  | ev :: rest => (w' <- deliver ev w ;; deliver_all rest w')%M
  end.

Definition is_notification (ev : SchedEvent) : bool :=
  match ev with Notification _ _ _ => true | SpuriousWakeup => false end.

Inductive WaitResult :=
| WaitReturned (w : t) (remaining : list SchedEvent)
| WaitBlocked (w : t).

Definition waiter_of (r : WaitResult) : t :=
  match r with WaitReturned w _ => w | WaitBlocked w => w end.

(** mCondition.wait(lock, pred) is  while (!pred()) wait(lock);  each
    [EvCondWait] releases the mutex and puts the calling thread to sleep
    until the next event of the schedule, after which the mutex is held
    again; when the schedule is exhausted the thread stays asleep. *)
Fixpoint wait_loop (w : t) (sched : list SchedEvent) : M WaitResult :=
  if mRegistered w then ret (WaitReturned w sched)
  else
    match sched with
    | [] => (_ <- emit EvCondWait ;; ret (WaitBlocked w))%M
    | ev :: rest =>
        (_ <- emit EvCondWait ;;
         w' <- deliver ev w ;;
         wait_loop w' rest)%M
    end.

Definition wait (w : t) (sched : list SchedEvent) : M WaitResult :=
  (_ <- emit (EvLock mMutex) ;;
   r <- wait_loop w sched ;;
   match r with
   | WaitReturned _ _ => _ <- emit (EvUnlock mMutex) ;; ret r
   | WaitBlocked _ => ret r
   end)%M.

(** The operations of a waiter, for runs of several of them: a callback, or
    a wait() during which [sched] happens. *)
Inductive Op :=
| OpOnRegistration (fqName name : string) (preexisting : bool)
| OpWait (sched : list SchedEvent).

Definition step (op : Op) (w : t) : M t :=
  match op with
  | OpOnRegistration fqName name preexisting => onRegistration fqName name preexisting w
  | OpWait sched => (r <- wait w sched ;; ret (waiter_of r))%M
  end.

Fixpoint run (ops : list Op) (w : t) : M t :=
  match ops with
  | [] => ret w
  | op :: rest => (w' <- step op w ;; run rest w')%M
  end.

Definition notifies (op : Op) : bool :=
  match op with
  | OpOnRegistration _ _ _ => true
  | OpWait sched => existsb is_notification sched
  end.

Definition signals (t : Trace) : nat :=
  List.length (filter (fun e => match e with EvNotifyOne => true | _ => false end) t).

Definition sleeps (t : Trace) : nat :=
  List.length (filter (fun e => match e with EvCondWait => true | _ => false end) t).
End Waiter.

(** ** details::waitForHwService *)

Section WaitForHwService.
Variable tr : Transport.

(** [before_wait]: what reaches the waiter after the registration call and
    before the caller enters wait(); [during_wait]: what reaches it
    afterwards.  The result is [None] when the function returned without
    calling wait(), else the result of wait(). *)
Definition waitForHwService (interface instanceName : string)
           (fuel : nat) (gDefaultServiceManager : option RegistryHandle)
           (before_wait during_wait : list Waiter.SchedEvent)
  : option (M (option Waiter.WaitResult * option RegistryHandle)) :=
  match defaultServiceManager tr fuel gDefaultServiceManager with
  | None => None
  | Some dsm =>
      Some (mg <- dsm ;;
            let (manager, g) := (mg : option RegistryHandle * option RegistryHandle) in
            match manager with
            | None =>
                _ <- LOG ERROR "Could not get default service manager." ;;
                ret (None, g)
            | Some m =>
                let waiter := Waiter.new in
                _ <- emit (EvRegisterForNotifications m interface instanceName) ;;
                match remote_registerForNotifications tr m interface instanceName with
                | TransportError description =>
                    _ <- LOG ERROR ("Transport error, " ++ description ++
                                    ", during notification registration for " ++
                                    interface ++ "/" ++ instanceName ++ ".")%string ;;
                    ret (None, g)
                | Ok false =>
                    _ <- LOG ERROR ("Could not register for notifications for " ++
                                    interface ++ "/" ++ instanceName ++ ".")%string ;;
                    ret (None, g)
                | Ok true =>
                    waiter' <- Waiter.deliver_all before_wait waiter ;;
                    r <- Waiter.wait waiter' during_wait ;;
                    ret (Some r, g)
                end
            end)%M
  end.
End WaitForHwService.

(** ** A concrete device, for running the definitions *)

Module Device.
Definition ODM := "/odm/lib/hw/".
Definition VENDOR := "/vendor/lib/hw/".
Definition SYSTEM := "/system/lib/hw/".

Definition file (n : string) : dirent := {| d_name := n; d_is_dir := false |}.
Definition subdir (n : string) : dirent := {| d_name := n; d_is_dir := true |}.

Definition odm_entries : list dirent :=
  [ subdir "."; subdir "..";
    file "android.hardware.foo@1.0-impl-broken.so";
    file "android.hardware.bar@1.0-impl.so";
    subdir "android.hardware.foo@1.0-impl.so.d";
    file "android.hardware.foo@1.0-impl.so";
    file "android.hardware.foo@1.0-impl.so.bak";
    file "android.hardware.foo@1.0.so" ].

Definition vendor_entries : list dirent :=
  [ subdir "."; subdir "..";
    file "android.hardware.foo@1.0-impl.so";
    file "android.hardware.baz@1.0-impl.so" ].

Definition fetch_IFoo (h : LibHandle) : Generator :=
  fun name => if String.eqb name "default" then Some (100 + h) else None.

Definition loader : Loader := {|
  opendir := fun path =>
    if String.eqb path ODM then Some odm_entries
    else if String.eqb path VENDOR then Some vendor_entries
    else None;
  dlopen := fun path =>
    if String.eqb path "/odm/lib/hw/android.hardware.foo@1.0-impl.so" then Some 1
    else if String.eqb path "/vendor/lib/hw/android.hardware.foo@1.0-impl.so" then Some 2
    else if String.eqb path "/odm/lib/hw/android.hardware.bar@1.0-impl.so" then Some 3
    else None;
  dlsym := fun h sym =>
    if String.eqb sym "HIDL_FETCH_IFoo" && ((h =? 1) || (h =? 2))%nat
    then Some (fetch_IFoo h)
    else None
|}.

Definition invalid_name : FQName.t := {|
  FQName.isValid := false;
  FQName.isFullyQualified := false;
  FQName.isIdentifier := false;
  FQName.getPackageAndVersion := "";
  FQName.name := ""
|}.

Definition fq (package_and_version iface : string) : FQName.t := {|
  FQName.isValid := true;
  FQName.isFullyQualified := true;
  FQName.isIdentifier := false;
  FQName.getPackageAndVersion := package_and_version;
  FQName.name := iface
|}.

Definition mkFQName (s : string) : FQName.t :=
  if String.eqb s "android.hardware.foo@1.0::IFoo" then fq "android.hardware.foo@1.0" "IFoo"
  else if String.eqb s "android.hardware.bar@1.0::IBar" then fq "android.hardware.bar@1.0" "IBar"
  else if String.eqb s "android.hardware.baz@1.0::IBaz" then fq "android.hardware.baz@1.0" "IBaz"
  else if String.eqb s "IFoo" then
    {| FQName.isValid := true; FQName.isFullyQualified := false;
       FQName.isIdentifier := true;
       FQName.getPackageAndVersion := ""; FQName.name := "IFoo" |}
  else invalid_name.

Definition get := PassthroughServiceManager.get loader mkFQName ODM VENDOR SYSTEM.

(** A transport whose registry becomes ready at the fourth lookup. *)
Definition booting : Transport := {|
  access := fun path => String.eqb path "/dev/hwbinder";
  getContextObject := fun k => if (k <? 3)%nat then None else Some 7;
  remote_registerForNotifications := fun m fqName name =>
    if String.eqb fqName "android.hardware.foo@1.0::IFoo" then Ok true
    else if String.eqb fqName "android.hardware.bar@1.0::IBar" then Ok false
    else TransportError "DEAD_OBJECT"
|}.

(** A host without /dev/hwbinder. *)
Definition no_hwbinder : Transport := {|
  access := fun _ => false;
  getContextObject := fun _ => Some 7;
  remote_registerForNotifications := fun _ _ _ => Ok true
|}.
End Device.

(** The candidates of one root, as the resolver's call of search yields them. *)
Definition candidates (ld : Loader) (iface : FQName.t) (path : string) : list string :=
  fst (search ld path (FQName.getPackageAndVersion iface ++ "-impl")%string ".so").

(** The loads the inner loop performs when it tries [libs] under [path]. *)
Definition load_events (path : string) (libs : list string) : Trace :=
  map (fun lib => EvDlopen (path ++ lib)%string) libs.

(** The lookups and sleeps of a retry loop whose attempts [n .. n+k-1] fail
    and whose attempt [n+k] succeeds. *)
Definition retry_trace (n k : nat) : Trace :=
  flat_map (fun j => [EvGetContextObject j; EvSleep 1]) (seq n k)
  ++ [EvGetContextObject (n + k)].

(** ** Counting the events of a trace *)






Definition is_invoke (e : Event) : bool :=
  match e with EvInvoke _ _ _ => true | _ => false end.

(** The events of the two loops of the resolver: a scan, a warning about
    several candidates, a load. *)
Definition is_search_event (e : Event) : bool :=
  match e with
  | EvOpendir _ | EvDlopen _ | EvLog WARNING _ => true
  | _ => false
  end.


(** The warning of the resolver about the candidates [libs] of one root. *)
Definition ambiguity_warning (libs : list string) : Event :=
  EvLog WARNING ("Multiple libraries found: " ++ StringHelper.JoinStrings libs ", ")%string.

(** * Properties *)

(** ** Running the definitions on the device *)

Example search_odm_foo :
  search Device.loader Device.ODM "android.hardware.foo@1.0-impl" ".so"
  = (["android.hardware.foo@1.0-impl-broken.so"; "android.hardware.foo@1.0-impl.so"],
     [EvOpendir "/odm/lib/hw/"]).
Proof. reflexivity. Qed.

Example get_foo_default :
  Device.get "android.hardware.foo@1.0::IFoo" "default"
  = (Some 101,
     [EvOpendir "/odm/lib/hw/";
      EvLog WARNING "Multiple libraries found: android.hardware.foo@1.0-impl-broken.so, android.hardware.foo@1.0-impl.so";
      EvDlopen "/odm/lib/hw/android.hardware.foo@1.0-impl-broken.so";
      EvDlopen "/odm/lib/hw/android.hardware.foo@1.0-impl.so";
      EvDlsym 1 "HIDL_FETCH_IFoo";
      EvInvoke 1 "HIDL_FETCH_IFoo" "default"]).
Proof. reflexivity. Qed.

Example get_bar_missing_symbol :
  Device.get "android.hardware.bar@1.0::IBar" "default"
  = (None,
     [EvOpendir "/odm/lib/hw/";
      EvDlopen "/odm/lib/hw/android.hardware.bar@1.0-impl.so";
      EvDlsym 3 "HIDL_FETCH_IBar";
      EvLog ERROR "Passthrough lookup opened android.hardware.bar@1.0-impl.so but could not find symbol HIDL_FETCH_IBar"]).
Proof. reflexivity. Qed.

Example get_baz_unloadable :
  Device.get "android.hardware.baz@1.0::IBaz" "default"
  = (None,
     [EvOpendir "/odm/lib/hw/"; EvOpendir "/vendor/lib/hw/";
      EvDlopen "/vendor/lib/hw/android.hardware.baz@1.0-impl.so";
      EvOpendir "/system/lib/hw/"]).
Proof. reflexivity. Qed.

Example defaultServiceManager_booting :
  defaultServiceManager Device.booting 10 None
  = Some ((Some 7, Some 7),
          [EvAccess "/dev/hwbinder"; EvLock gDefaultServiceManagerLock;
           EvGetContextObject 0; EvSleep 1; EvGetContextObject 1; EvSleep 1;
           EvGetContextObject 2; EvSleep 1; EvGetContextObject 3;
           EvUnlock gDefaultServiceManagerLock]).
Proof. reflexivity. Qed.

Example defaultServiceManager_out_of_fuel :
  defaultServiceManager Device.booting 3 None = None.
Proof. reflexivity. Qed.

Example waitForHwService_foo :
  waitForHwService Device.booting "android.hardware.foo@1.0::IFoo" "default" 1 (Some 7)
    [] [Waiter.SpuriousWakeup; Waiter.Notification "x" "y" false; Waiter.Notification "x" "y" false]
  = Some ((Some (Waiter.WaitReturned {| Waiter.mRegistered := true |}
                   [Waiter.Notification "x" "y" false]), Some 7),
          [EvRegisterForNotifications 7 "android.hardware.foo@1.0::IFoo" "default";
           EvLock mMutex; EvCondWait; EvCondWait;
           EvLock mMutex; EvUnlock mMutex; EvNotifyOne; EvUnlock mMutex]).
Proof. reflexivity. Qed.

(** ** Strings: what StartsWith and EndsWith decide *)

Section StringFacts.

Lemma length_append (a b : string) :
  String.length (a ++ b)%string = String.length a + String.length b.
Proof. induction a as [|c a IH]; simpl; [reflexivity | now rewrite IH]. Qed.

Lemma substring_0_0 (s : string) : substring 0 0 s = "".
Proof. destruct s; reflexivity. Qed.

Lemma substring_head (p r : string) :
  substring 0 (String.length p) (p ++ r)%string = p.
Proof.
  induction p as [|c p IH]; simpl.
  - apply substring_0_0.
  - now rewrite IH.
Qed.

Lemma substring_skip (r p : string) (m : nat) :
  substring (String.length r) m (r ++ p)%string = substring 0 m p.
Proof. induction r as [|c r IH]; simpl; [reflexivity | exact IH]. Qed.

Lemma substring_whole (p : string) : substring 0 (String.length p) p = p.
Proof. induction p as [|c p IH]; simpl; [reflexivity | now rewrite IH]. Qed.

(** Cutting a string at position [n] loses nothing. *)
Lemma substring_split (n : nat) : forall s : string,
  n <= String.length s ->
  s = (substring 0 n s ++ substring n (String.length s - n) s)%string.
Proof.
  induction n as [|n IH]; intros s Hn.
  - rewrite substring_0_0, Nat.sub_0_r, substring_whole. reflexivity.
  - destruct s as [|c s]; simpl in Hn; [lia|].
    simpl. f_equal. apply IH. lia.
Qed.

Lemma StartsWith_iff (s prefix : string) :
  StringHelper.StartsWith s prefix = true <-> exists rest, s = (prefix ++ rest)%string.
Proof.
  unfold StringHelper.StartsWith. rewrite andb_true_iff, Nat.leb_le, String.eqb_eq.
  split.
  - intros [Hlen Hsub].
    exists (substring (String.length prefix) (String.length s - String.length prefix) s).
    rewrite <- Hsub at 1. now apply substring_split.
  - intros [rest ->]. split.
    + rewrite length_append. lia.
    + apply substring_head.
Qed.

Lemma EndsWith_iff (s suffix : string) :
  StringHelper.EndsWith s suffix = true <-> exists front, s = (front ++ suffix)%string.
Proof.
  unfold StringHelper.EndsWith. rewrite andb_true_iff, Nat.leb_le, String.eqb_eq.
  split.
  - intros [Hlen Hsub].
    exists (substring 0 (String.length s - String.length suffix) s).
    pose proof (substring_split (String.length s - String.length suffix) s) as Hcut.
    replace (String.length s - (String.length s - String.length suffix))
      with (String.length suffix) in Hcut by lia.
    rewrite Hsub in Hcut. apply Hcut. lia.
  - intros [front ->]. rewrite length_append. split; [lia|].
    replace (String.length front + String.length suffix - String.length suffix)
      with (String.length front) by lia.
    rewrite substring_skip. apply substring_whole.
Qed.

End StringFacts.

(** ** search *)

Section SearchFacts.
Variable ld : Loader.

(** The loop appends to [results], in stream order, what the filter keeps. *)
Lemma readdir_loop_filter (prefix suffix : string) (stream : list dirent) :
  forall results,
    readdir_loop prefix suffix stream results
    = results ++ scan_spec prefix suffix stream.
Proof.
  induction stream as [|dp rest IH]; intros results; simpl.
  - now rewrite app_nil_r.
  - unfold scan_spec in *. simpl.
    destruct (StringHelper.StartsWith (d_name dp) prefix
              && StringHelper.EndsWith (d_name dp) suffix).
    + rewrite IH, <- app_assoc. reflexivity.
    + apply IH.
Qed.

Lemma scan_spec_In (prefix suffix : string) (entries : list dirent) (name : string) :
  In name (scan_spec prefix suffix entries) <->
  (exists dp, In dp entries /\ d_name dp = name) /\
  (exists rest, name = (prefix ++ rest)%string) /\
  (exists front, name = (front ++ suffix)%string).
Proof.
  unfold scan_spec. rewrite filter_In, in_map_iff, andb_true_iff.
  rewrite StartsWith_iff, EndsWith_iff.
  split.
  - intros [[dp [Hname Hin]] [Hpre Hsuf]]. repeat split; eauto.
  - intros [[dp [Hin Hname]] [Hpre Hsuf]]. repeat split; eauto.
Qed.

Lemma search_trace (path prefix suffix : string) :
  snd (search ld path prefix suffix) = [EvOpendir path].
Proof. unfold search. simpl. destruct (opendir ld path); reflexivity. Qed.

End SearchFacts.

(** C9. When the directory cannot be opened, search returns the empty
    sequence (a value, there is no error channel).  Otherwise it returns, in
    directory-iteration order, exactly the entries whose name starts with the
    prefix and ends with the suffix: the result is the filtered list of entry
    names, and a name is in it exactly when it is the name of an entry, has
    the prefix in front and the suffix at the end.  In both cases the only
    directory the call opens is [path] itself, whatever kind the entries
    have: there is no descent into subdirectories. *)
Theorem search_returns_matching_entries
  (ld : Loader) (path prefix suffix : string) :
  (opendir ld path = None ->
   search ld path prefix suffix = ([], [EvOpendir path])) /\
  (forall entries, opendir ld path = Some entries ->
     search ld path prefix suffix
     = (scan_spec prefix suffix entries, [EvOpendir path]) /\
     (forall name,
        In name (fst (search ld path prefix suffix)) <->
        (exists dp, In dp entries /\ d_name dp = name) /\
        (exists rest, name = (prefix ++ rest)%string) /\
        (exists front, name = (front ++ suffix)%string))).
Proof.
  split.
  - intros Hno. unfold search. rewrite Hno. reflexivity.
  - intros entries Hopen.
    assert (Heq : search ld path prefix suffix
                  = (scan_spec prefix suffix entries, [EvOpendir path])).
    { unfold search. rewrite Hopen. simpl. now rewrite readdir_loop_filter. }
    split; [exact Heq|].
    intros name. rewrite Heq. simpl. apply scan_spec_In.
Qed.

Lemma search_returns_matching_entries_witness :
  search Device.loader Device.SYSTEM "android.hardware.foo@1.0-impl" ".so"
  = ([], [EvOpendir Device.SYSTEM]) /\
  search Device.loader Device.ODM "android.hardware.foo@1.0-impl" ".so"
  = (scan_spec "android.hardware.foo@1.0-impl" ".so" Device.odm_entries,
     [EvOpendir Device.ODM]).
Proof.
  split.
  - apply (proj1 (search_returns_matching_entries
                    Device.loader Device.SYSTEM "android.hardware.foo@1.0-impl" ".so")).
    reflexivity.
  - apply (proj2 (search_returns_matching_entries
                    Device.loader Device.ODM "android.hardware.foo@1.0-impl" ".so")
                 Device.odm_entries).
    reflexivity.
Defined.

(** ** Traces *)

Lemma dlopens_app (t1 t2 : Trace) : dlopens (t1 ++ t2) = dlopens t1 ++ dlopens t2.
Proof. apply flat_map_app. Qed.

Lemma opendirs_app (t1 t2 : Trace) : opendirs (t1 ++ t2) = opendirs t1 ++ opendirs t2.
Proof. apply flat_map_app. Qed.

Lemma dlopens_of_loads (path : string) (libs : list string) :
  dlopens (map (fun lib => EvDlopen (path ++ lib)%string) libs)
  = map (String.append path) libs.
Proof. induction libs as [|lib libs IH]; simpl; [reflexivity | now rewrite IH]. Qed.

Lemma opendirs_of_loads (path : string) (libs : list string) :
  opendirs (map (fun lib => EvDlopen (path ++ lib)%string) libs) = [].
Proof. induction libs as [|lib libs IH]; simpl; [reflexivity | exact IH]. Qed.

(** In a list of failed loads followed by one load, the only element that
    can load is the last. *)
Lemma last_is_the_load {A} (P : A -> Prop) (fails : list A) (x : A) :
  Forall (fun a => ~ P a) fails ->
  forall pre p post,
    fails ++ [x] = pre ++ p :: post -> P p ->
    pre = fails /\ p = x /\ post = [].
Proof.
  induction 1 as [|a fails Ha Hfails IH]; intros pre p post Heq Hp.
  - destruct pre as [|q pre]; simpl in Heq.
    + inversion Heq; subst. auto.
    + inversion Heq as [[Hq Hnil]]. destruct pre; discriminate.
  - destruct pre as [|q pre]; simpl in Heq.
    + inversion Heq; subst. contradiction.
    + inversion Heq as [[Hq Hrest]]. subst q.
      destruct (IH pre p post Hrest Hp) as (-> & -> & ->). auto.
Qed.

(** ** PassthroughServiceManager::get: the two loops *)

Section PassthroughFacts.
Variable ld : Loader.

(** The inner loop, by cases on its result. *)
Lemma try_libs_char (path : string) (libs : list string) :
  match PassthroughServiceManager.try_libs ld path libs with
  | (None, t) =>
      t = load_events path libs /\
      Forall (fun lib => dlopen ld (path ++ lib)%string = None) libs
  | (Some (h, lib), t) =>
      exists l1 l2,
        libs = l1 ++ lib :: l2 /\
        Forall (fun l => dlopen ld (path ++ l)%string = None) l1 /\
        dlopen ld (path ++ lib)%string = Some h /\
        t = load_events path (l1 ++ [lib])
  end.
Proof.
  induction libs as [|lib rest IH]; simpl.
  - split; [reflexivity | constructor].
  - unfold bind, emit. simpl.
    destruct (dlopen ld (path ++ lib)%string) as [h|] eqn:Hload.
    + simpl. exists [], rest. repeat split; auto.
    + destruct (PassthroughServiceManager.try_libs ld path rest) as [[[h l]|] t].
      * destruct IH as (l1 & l2 & -> & Hfail & Hok & ->).
        exists (lib :: l1), l2. repeat split; auto.
      * destruct IH as [-> Hfail]. split; [reflexivity | now constructor].
Qed.

(** The inner loop stops at the first library that loads. *)
Lemma try_libs_found (path : string) (l1 l2 : list string) (c : string) (h : LibHandle) :
  (forall lib, In lib l1 -> dlopen ld (path ++ lib)%string = None) ->
  dlopen ld (path ++ c)%string = Some h ->
  PassthroughServiceManager.try_libs ld path (l1 ++ c :: l2)
  = (Some (h, c), load_events path (l1 ++ [c])).
Proof.
  intros Hfail Hok. induction l1 as [|lib l1 IH]; simpl; unfold bind, emit; simpl.
  - rewrite Hok. reflexivity.
  - rewrite (Hfail lib (or_introl eq_refl)).
    rewrite IH by (intros l Hl; apply Hfail; now right). reflexivity.
Qed.

Lemma try_libs_none (path : string) (libs : list string) :
  (forall lib, In lib libs -> dlopen ld (path ++ lib)%string = None) ->
  PassthroughServiceManager.try_libs ld path libs = (None, load_events path libs).
Proof.
  intros Hfail. induction libs as [|lib libs IH]; simpl; unfold bind, emit; simpl.
  - reflexivity.
  - rewrite (Hfail lib (or_introl eq_refl)).
    rewrite IH by (intros l Hl; apply Hfail; now right). reflexivity.
Qed.

(** One round of the outer loop: scan, maybe warn, then the inner loop. *)
Lemma try_paths_cons (iface : FQName.t) (path : string) (rest : list string) :
  PassthroughServiceManager.try_paths ld iface (path :: rest)
  = let libs := candidates ld iface path in
    let warn := if Nat.ltb 1 (List.length libs)
                then [EvLog WARNING ("Multiple libraries found: " ++
                                     StringHelper.JoinStrings libs ", ")%string]
                else [] in
    let (r, t) := PassthroughServiceManager.try_libs ld path libs in
    match r with
    | Some found => (Some found, EvOpendir path :: warn ++ t)
    | None =>
        let (r', t') := PassthroughServiceManager.try_paths ld iface rest in
        (r', EvOpendir path :: warn ++ t ++ t')
    end.
Proof.
  unfold candidates. simpl. unfold bind.
  pose proof (search_trace ld path
                (FQName.getPackageAndVersion iface ++ "-impl")%string ".so") as Htr.
  destruct (search ld path _ ".so") as [libs ts]. simpl in Htr. subst ts. simpl.
  destruct (Nat.ltb 1 (List.length libs)); simpl;
    destruct (PassthroughServiceManager.try_libs ld path libs) as [[found|] t]; simpl;
    rewrite ?app_nil_r; try reflexivity;
    destruct (PassthroughServiceManager.try_paths ld iface rest) as [r' t']; simpl;
    rewrite ?app_nil_r; reflexivity.
Qed.

Lemma dlopens_warn (b : bool) (msg : string) (t : Trace) :
  dlopens ((if b then [EvLog WARNING msg] else []) ++ t) = dlopens t.
Proof. destruct b; reflexivity. Qed.

Lemma opendirs_warn (b : bool) (msg : string) (t : Trace) :
  opendirs ((if b then [EvLog WARNING msg] else []) ++ t) = opendirs t.
Proof. destruct b; reflexivity. Qed.

(** The outer loop, by cases on its result: either every load it attempted
    failed, or the last event is the load that succeeded and every load
    before it failed. *)
Lemma try_paths_char (iface : FQName.t) (paths : list string) :
  match PassthroughServiceManager.try_paths ld iface paths with
  | (None, t) => Forall (fun p => dlopen ld p = None) (dlopens t)
  | (Some (h, lib), t) =>
      exists root t0,
        t = t0 ++ [EvDlopen (root ++ lib)%string] /\
        In root paths /\
        Forall (fun p => dlopen ld p = None) (dlopens t0) /\
        dlopen ld (root ++ lib)%string = Some h
  end.
Proof.
  induction paths as [|path rest IH].
  - simpl. constructor.
  - rewrite try_paths_cons. cbv zeta.
    pose proof (try_libs_char path (candidates ld iface path)) as Hlibs.
    set (warn := if Nat.ltb 1 (List.length (candidates ld iface path))
                 then _ else _).
    destruct (PassthroughServiceManager.try_libs ld path (candidates ld iface path))
      as [[[h lib]|] t].
    + destruct Hlibs as (l1 & l2 & Hsplit & Hfail & Hok & ->).
      exists path, (EvOpendir path :: warn ++ load_events path l1).
      split; [|split; [now left | split; [|exact Hok]]].
      * unfold load_events. rewrite map_app. simpl.
        now rewrite app_assoc.
      * simpl. unfold warn. rewrite dlopens_warn.
        unfold load_events. rewrite dlopens_of_loads.
        apply Forall_map. exact Hfail.
    + destruct Hlibs as [-> Hfail].
      assert (Hhere : Forall (fun p => dlopen ld p = None)
                        (dlopens (load_events path (candidates ld iface path)))).
      { unfold load_events. rewrite dlopens_of_loads. apply Forall_map. exact Hfail. }
      destruct (PassthroughServiceManager.try_paths ld iface rest) as [[[h lib]|] t'].
      * destruct IH as (root & t0 & -> & Hin & Hf & Hok).
        exists root,
          (EvOpendir path :: warn ++ load_events path (candidates ld iface path) ++ t0).
        split; [|split; [now right | split; [|exact Hok]]].
        -- simpl. now rewrite <- !app_assoc.
        -- simpl. unfold warn. rewrite dlopens_warn, dlopens_app.
           apply Forall_app. now split.
      * simpl. unfold warn. rewrite dlopens_warn, dlopens_app.
        apply Forall_app. now split.
Qed.

(** The outer loop stops at the first library that loads, in the first root
    that has one; the roots before it were scanned and all their candidates
    tried, the roots after it are not touched. *)
Lemma try_paths_found (iface : FQName.t) (before after : list string) (root : string)
      (l1 l2 : list string) (c : string) (h : LibHandle) :
  (forall p lib, In p before -> In lib (candidates ld iface p) ->
                 dlopen ld (p ++ lib)%string = None) ->
  candidates ld iface root = l1 ++ c :: l2 ->
  (forall lib, In lib l1 -> dlopen ld (root ++ lib)%string = None) ->
  dlopen ld (root ++ c)%string = Some h ->
  let res := PassthroughServiceManager.try_paths ld iface (before ++ root :: after) in
  fst res = Some (h, c) /\
  opendirs (snd res) = before ++ [root] /\
  dlopens (snd res)
  = flat_map (fun p => map (String.append p) (candidates ld iface p)) before
    ++ map (String.append root) (l1 ++ [c]).
Proof.
  intros Hbefore Hcand Hl1 Hok.
  induction before as [|p before IH]; cbv zeta.
  - simpl app. rewrite try_paths_cons. cbv zeta.
    rewrite Hcand, (try_libs_found root l1 l2 c h Hl1 Hok). simpl.
    rewrite opendirs_warn, dlopens_warn.
    fold (load_events root (l1 ++ [c])). unfold load_events.
    rewrite opendirs_of_loads, dlopens_of_loads. auto.
  - simpl app. rewrite try_paths_cons. cbv zeta.
    rewrite try_libs_none
      by (intros lib Hlib; apply Hbefore; [now left | exact Hlib]).
    destruct IH as (Hres & Hopen & Hload).
    { intros q lib Hq Hlib. apply Hbefore; [now right | exact Hlib]. }
    destruct (PassthroughServiceManager.try_paths ld iface (before ++ root :: after))
      as [r t]. simpl in Hres, Hopen, Hload. subst r. simpl.
    rewrite opendirs_warn, dlopens_warn, opendirs_app, dlopens_app.
    unfold load_events. rewrite opendirs_of_loads, dlopens_of_loads.
    rewrite Hopen, Hload. simpl. rewrite app_assoc. auto.
Qed.

End PassthroughFacts.

(** ** PassthroughServiceManager::get *)

Lemma beginLookup_trace (ld : Loader) (iface : FQName.t) (name : string)
      (h : LibHandle) (library : string) :
  opendirs (snd (PassthroughServiceManager.beginLookup ld iface name h library)) = [] /\
  dlopens (snd (PassthroughServiceManager.beginLookup ld iface name h library)) = [].
Proof.
  unfold PassthroughServiceManager.beginLookup, bind, emit, LOG, emit. simpl.
  destruct (dlsym ld h _); simpl; auto.
Qed.

(** A valid name sends get through the two loops and, when they found a
    library, through the lookup of the factory. *)
Lemma get_valid (ld : Loader) (mkFQName : string -> FQName.t)
      (ODM VENDOR SYSTEM fqName name : string) :
  FQName.isValid (mkFQName fqName) = true ->
  FQName.isFullyQualified (mkFQName fqName) = true ->
  FQName.isIdentifier (mkFQName fqName) = false ->
  PassthroughServiceManager.get ld mkFQName ODM VENDOR SYSTEM fqName name
  = let (r, t) := PassthroughServiceManager.try_paths ld (mkFQName fqName)
                    (PassthroughServiceManager.hal_library_paths ODM VENDOR SYSTEM) in
    match r with
    | None => (None, t)
    | Some (handle, library) =>
        let (b, t') := PassthroughServiceManager.beginLookup
                         ld (mkFQName fqName) name handle library in
        (b, t ++ t')
    end.
Proof.
  intros Hv Hq Hi. unfold PassthroughServiceManager.get.
  rewrite Hv, Hq, Hi. cbn [negb orb]. unfold bind.
  destruct (PassthroughServiceManager.try_paths ld (mkFQName fqName) _) as [[[h lib]|] t].
  - reflexivity.
  - unfold ret. now rewrite app_nil_r.
Qed.

(** C1. For a valid, fully-qualified, non-identifier name: let [root] be a
    search root, [before] the roots of higher priority and [after] those of
    lower priority, in the order ODM, vendor, system.  If no candidate of the
    roots in [before] loads, and the candidates of [root] are, in scan order,
    [l1] (none of which loads), then [c] (which loads, with handle [h]), then
    [l2], the resolver continues from [c]: its result is the result of the
    factory lookup in [h], so that it succeeds with the service that the
    factory of [h] makes; it scanned exactly [before] and [root], in that
    order; and it attempted exactly the loads of all candidates of [before],
    root-major, then of [l1], then of [c].  Neither [l2] nor any root of
    [after] is scanned or loaded. *)
Theorem get_commits_to_first_loadable
  (ld : Loader) (mkFQName : string -> FQName.t)
  (ODM VENDOR SYSTEM fqName name : string)
  (before after : list string) (root : string)
  (l1 l2 : list string) (c : string) (h : LibHandle) :
  FQName.isValid (mkFQName fqName) = true ->
  FQName.isFullyQualified (mkFQName fqName) = true ->
  FQName.isIdentifier (mkFQName fqName) = false ->
  [ODM; VENDOR; SYSTEM] = before ++ root :: after ->
  (forall p lib, In p before -> In lib (candidates ld (mkFQName fqName) p) ->
                 dlopen ld (p ++ lib)%string = None) ->
  candidates ld (mkFQName fqName) root = l1 ++ c :: l2 ->
  (forall lib, In lib l1 -> dlopen ld (root ++ lib)%string = None) ->
  dlopen ld (root ++ c)%string = Some h ->
  let res := PassthroughServiceManager.get ld mkFQName ODM VENDOR SYSTEM fqName name in
  fst res = fst (PassthroughServiceManager.beginLookup ld (mkFQName fqName) name h c) /\
  (forall generator service,
     dlsym ld h ("HIDL_FETCH_" ++ FQName.name (mkFQName fqName))%string = Some generator ->
     generator name = Some service ->
     fst res = Some service) /\
  opendirs (snd res) = before ++ [root] /\
  dlopens (snd res)
  = flat_map (fun p => map (String.append p) (candidates ld (mkFQName fqName) p)) before
    ++ map (String.append root) (l1 ++ [c]).
Proof.
  intros Hv Hq Hi Hroots Hbefore Hcand Hl1 Hok res. subst res.
  assert (Hfactory : forall generator service,
             dlsym ld h ("HIDL_FETCH_" ++ FQName.name (mkFQName fqName))%string
             = Some generator ->
             generator name = Some service ->
             fst (PassthroughServiceManager.beginLookup ld (mkFQName fqName) name h c)
             = Some service).
  { intros generator service Hsym Hgen.
    unfold PassthroughServiceManager.beginLookup, bind, emit, ret.
    rewrite Hsym. simpl. exact Hgen. }
  rewrite (get_valid ld mkFQName ODM VENDOR SYSTEM fqName name Hv Hq Hi).
  unfold PassthroughServiceManager.hal_library_paths. rewrite Hroots.
  destruct (try_paths_found ld (mkFQName fqName) before after root l1 l2 c h
              Hbefore Hcand Hl1 Hok) as (Hres & Hopen & Hload).
  destruct (PassthroughServiceManager.try_paths ld (mkFQName fqName)
              (before ++ root :: after)) as [r t].
  simpl in Hres, Hopen, Hload. subst r.
  destruct (beginLookup_trace ld (mkFQName fqName) name h c) as [Ho Hd].
  destruct (PassthroughServiceManager.beginLookup ld (mkFQName fqName) name h c)
    as [b t'].
  simpl in Ho, Hd, Hfactory |- *.
  rewrite opendirs_app, dlopens_app, Ho, Hd, !app_nil_r. auto.
Qed.

(** On the device the ODM root holds an unloadable candidate followed by a
    loadable one, and the vendor root holds a loadable one too. *)
Lemma get_commits_to_first_loadable_witness :
  let res := Device.get "android.hardware.foo@1.0::IFoo" "default" in
  fst res = Some 101 /\
  (forall generator service,
     dlsym Device.loader 1 "HIDL_FETCH_IFoo" = Some generator ->
     generator "default" = Some service ->
     fst res = Some service) /\
  opendirs (snd res) = [Device.ODM] /\
  dlopens (snd res) = ["/odm/lib/hw/android.hardware.foo@1.0-impl-broken.so";
                       "/odm/lib/hw/android.hardware.foo@1.0-impl.so"].
Proof.
  apply (get_commits_to_first_loadable
           Device.loader Device.mkFQName Device.ODM Device.VENDOR Device.SYSTEM
           "android.hardware.foo@1.0::IFoo" "default"
           [] [Device.VENDOR; Device.SYSTEM] Device.ODM
           ["android.hardware.foo@1.0-impl-broken.so"] []
           "android.hardware.foo@1.0-impl.so" 1).
  - reflexivity.
  - reflexivity.
  - reflexivity.
  - reflexivity.
  - intros p lib [].
  - reflexivity.
  - intros lib [<- | []]. reflexivity.
  - reflexivity.
Defined.

(** C5. In every resolution: if among the loads the resolver attempted there
    is one, of path [p], that succeeds with handle [h], then no load follows
    it ([post] is empty); and if moreover the symbol HIDL_FETCH_<interface
    name> is absent from [h], the result is absent, [p] is a candidate
    [library] of one of the three roots, and the run ends with that load, the
    symbol lookup and the error report, nothing else being attempted. *)
Theorem get_missing_symbol_is_final
  (ld : Loader) (mkFQName : string -> FQName.t)
  (ODM VENDOR SYSTEM fqName name : string)
  (pre post : list string) (p : string) (h : LibHandle) :
  let res := PassthroughServiceManager.get ld mkFQName ODM VENDOR SYSTEM fqName name in
  let sym := ("HIDL_FETCH_" ++ FQName.name (mkFQName fqName))%string in
  dlopens (snd res) = pre ++ p :: post ->
  dlopen ld p = Some h ->
  post = [] /\
  (dlsym ld h sym = None ->
   fst res = None /\
   exists root library t0,
     In root [ODM; VENDOR; SYSTEM] /\
     p = (root ++ library)%string /\
     dlopens t0 = pre /\
     snd res = t0 ++ [EvDlopen p; EvDlsym h sym;
                      EvLog ERROR ("Passthrough lookup opened " ++ library ++
                                   " but could not find symbol " ++ sym)%string]).
Proof.
  intros res sym Hloads Hok. subst res.
  unfold PassthroughServiceManager.get in *.
  destruct (negb (FQName.isValid (mkFQName fqName))
            || negb (FQName.isFullyQualified (mkFQName fqName))
            || FQName.isIdentifier (mkFQName fqName)).
  { simpl in Hloads. destruct pre; discriminate. }
  unfold bind in *.
  pose proof (try_paths_char ld (mkFQName fqName)
                (PassthroughServiceManager.hal_library_paths ODM VENDOR SYSTEM)) as Hchar.
  destruct (PassthroughServiceManager.try_paths ld (mkFQName fqName) _)
    as [[[h' lib]|] t].
  - destruct Hchar as (root & t0 & -> & Hin & Hfail & Hok').
    pose proof (beginLookup_trace ld (mkFQName fqName) name h' lib) as [_ Hd].
    unfold PassthroughServiceManager.beginLookup, bind, emit, LOG, emit, ret in *.
    fold sym in Hd |- *. fold sym in Hloads.
    assert (Hlast : dlopens t0 ++ [(root ++ lib)%string] = pre ++ p :: post).
    { rewrite <- Hloads.
      destruct (dlsym ld h' sym); simpl; rewrite !dlopens_app; simpl;
        now rewrite app_nil_r. }
    destruct (last_is_the_load (fun q => dlopen ld q <> None) (dlopens t0)
                (root ++ lib)%string) with (pre := pre) (p := p) (post := post)
      as (Hpre & Hp & Hpost).
    + eapply Forall_impl; [|exact Hfail]. intros q Hq Hne. now apply Hne.
    + exact Hlast.
    + rewrite Hok. discriminate.
    + split; [exact Hpost|]. intros Hsym.
      subst p. rewrite Hok' in Hok. inversion Hok; subst h'.
      rewrite Hsym. simpl. split; [reflexivity|].
      exists root, lib, t0. repeat split; auto.
      now rewrite <- app_assoc.
  - simpl in Hloads. rewrite app_nil_r in Hloads.
    rewrite Hloads in Hchar. apply Forall_app in Hchar. destruct Hchar as [_ Hc].
    inversion Hc; subst. congruence.
Qed.

Lemma get_missing_symbol_is_final_witness :
  fst (Device.get "android.hardware.bar@1.0::IBar" "default") = None.
Proof.
  refine (proj1 (proj2 (get_missing_symbol_is_final
           Device.loader Device.mkFQName Device.ODM Device.VENDOR Device.SYSTEM
           "android.hardware.bar@1.0::IBar" "default"
           [] [] "/odm/lib/hw/android.hardware.bar@1.0-impl.so" 3 _ _) _)).
  - reflexivity.
  - reflexivity.
  - reflexivity.
Defined.

(** C6. For a name that is invalid, or not fully qualified, or an
    identifier-only form, get reports the error and returns absent, and the
    error report is the only event of the run: no directory is scanned, no
    library is loaded, no symbol is looked up. *)
Theorem get_rejects_bad_name_untouched
  (ld : Loader) (mkFQName : string -> FQName.t)
  (ODM VENDOR SYSTEM fqName name : string) :
  FQName.isValid (mkFQName fqName) = false \/
  FQName.isFullyQualified (mkFQName fqName) = false \/
  FQName.isIdentifier (mkFQName fqName) = true ->
  let res := PassthroughServiceManager.get ld mkFQName ODM VENDOR SYSTEM fqName name in
  res = (None, [EvLog ERROR ("Invalid interface name passthrough lookup: " ++ fqName)%string])
  /\ existsb is_fs_event (snd res) = false
  /\ opendirs (snd res) = [] /\ dlopens (snd res) = [].
Proof.
  intros Hbad res. subst res. unfold PassthroughServiceManager.get.
  assert (Hguard : negb (FQName.isValid (mkFQName fqName))
                   || negb (FQName.isFullyQualified (mkFQName fqName))
                   || FQName.isIdentifier (mkFQName fqName) = true).
  { destruct Hbad as [-> | [-> | ->]]; simpl;
      rewrite ?orb_true_r; reflexivity. }
  rewrite Hguard. repeat split.
Qed.

Lemma get_rejects_bad_name_untouched_witness :
  Device.get "IFoo" "default"
  = (None, [EvLog ERROR "Invalid interface name passthrough lookup: IFoo"]) /\
  Device.get "android.hardware.foo" "default"
  = (None, [EvLog ERROR "Invalid interface name passthrough lookup: android.hardware.foo"]).
Proof.
  split.
  - apply (get_rejects_bad_name_untouched
             Device.loader Device.mkFQName Device.ODM Device.VENDOR Device.SYSTEM
             "IFoo" "default").
    right. right. reflexivity.
  - apply (get_rejects_bad_name_untouched
             Device.loader Device.mkFQName Device.ODM Device.VENDOR Device.SYSTEM
             "android.hardware.foo" "default").
    left. reflexivity.
Defined.

(** ** The registry-only operations of the passthrough manager *)

(** A call of add on the passthrough manager gives its caller no result at
    all: the process is aborted by the fatal log, so no error value is
    reported to anyone. *)
Lemma add_reports_no_result :
  fst (PassthroughServiceManager.add
         ["android.hardware.foo@1.0::IFoo"; "android.hidl.base@1.0::IBase"]
         "default" (Some 101))
  = Aborted /\
  ~ (exists result : bool,
       fst (PassthroughServiceManager.add
              ["android.hardware.foo@1.0::IFoo"; "android.hidl.base@1.0::IBase"]
              "default" (Some 101))
       = Returned result).
Proof. split; [reflexivity|]. intros [result H]. discriminate H. Qed.

(** C2, as the code has it. Each of add, list, listByInterface and
    registerForNotifications of the passthrough manager, on every argument,
    writes one FATAL log message and aborts the process; none of them returns
    a value to its caller, and the statement after the log is never reached. *)
Theorem registry_only_operations_abort :
  (forall interfaceChain name service,
     PassthroughServiceManager.add interfaceChain name service
     = (Aborted,
        [EvLog FATAL "Cannot register services with passthrough service manager."])) /\
  (forall cb,
     PassthroughServiceManager.list cb
     = (Aborted,
        [EvLog FATAL "Cannot list services with passthrough service manager."])) /\
  (forall fqInstanceName cb,
     PassthroughServiceManager.listByInterface fqInstanceName cb
     = (Aborted,
        [EvLog FATAL "Cannot list services with passthrough service manager."])) /\
  (forall fqName name callback,
     PassthroughServiceManager.registerForNotifications fqName name callback
     = (Aborted,
        [EvLog FATAL
           "Cannot register for notifications with passthrough service manager."])).
Proof. repeat split. Qed.

(** ** defaultServiceManager: the retry loop *)

Section RegistryFacts.
Variable tr : Transport.

Lemma retry_trace_0 (n : nat) : retry_trace n 0 = [EvGetContextObject n].
Proof. unfold retry_trace. simpl. now rewrite Nat.add_0_r. Qed.

Lemma retry_trace_S (n k : nat) :
  retry_trace n (S k) = EvGetContextObject n :: EvSleep 1 :: retry_trace (S n) k.
Proof. unfold retry_trace. simpl. now rewrite Nat.add_succ_r. Qed.

(** With a handle in hand the loop condition is false at once. *)
Lemma retry_loop_cached (fuel attempt : nat) (h : RegistryHandle) :
  retry_loop tr fuel attempt (Some h) = Some (Some h, []).
Proof. destruct fuel; reflexivity. Qed.

(** One iteration of the loop body. *)
Lemma retry_loop_step (fuel attempt : nat) :
  retry_loop tr (S fuel) attempt None
  = match getContextObject tr attempt with
    | Some h => Some (Some h, [EvGetContextObject attempt])
    | None =>
        match retry_loop tr fuel (S attempt) None with
        | Some (r, t) => Some (r, EvGetContextObject attempt :: EvSleep 1 :: t)
        | None => None
        end
    end.
Proof.
  simpl. destruct (getContextObject tr attempt) as [h|].
  - rewrite retry_loop_cached. reflexivity.
  - destruct (retry_loop tr fuel (S attempt) None) as [[r t]|]; reflexivity.
Qed.

(** Enough fuel: the loop returns at the first attempt that succeeds. *)
Lemma retry_loop_success (k : nat) : forall fuel n h,
  (forall j, j < k -> getContextObject tr (n + j) = None) ->
  getContextObject tr (n + k) = Some h ->
  k < fuel ->
  retry_loop tr fuel n None = Some (Some h, retry_trace n k).
Proof.
  induction k as [|k IH]; intros fuel n h Hfail Hok Hfuel;
    (destruct fuel as [|fuel]; [lia|]); rewrite retry_loop_step.
  - rewrite Nat.add_0_r in Hok. rewrite Hok, retry_trace_0. reflexivity.
  - pose proof (Hfail 0 (Nat.lt_0_succ k)) as H0. rewrite Nat.add_0_r in H0.
    rewrite H0, (IH fuel (S n) h), retry_trace_S; try reflexivity; try lia.
    + intros j Hj. replace (S n + j) with (n + S j) by lia. apply Hfail. lia.
    + replace (S n + k) with (n + S k) by lia. exact Hok.
Qed.

(** While every attempt so far fails, the loop is still running. *)
Lemma retry_loop_starved (fuel : nat) : forall n,
  (forall j, j < fuel -> getContextObject tr (n + j) = None) ->
  retry_loop tr fuel n None = None.
Proof.
  induction fuel as [|fuel IH]; intros n Hfail; [reflexivity|].
  rewrite retry_loop_step.
  pose proof (Hfail 0 (Nat.lt_0_succ fuel)) as H0. rewrite Nat.add_0_r in H0.
  rewrite H0, IH; [reflexivity|].
  intros j Hj. replace (S n + j) with (n + S j) by lia. apply Hfail. lia.
Qed.

(** Whenever the loop returns, it returns the handle of the first attempt
    that succeeded, after one sleep per failed attempt. *)
Lemma retry_loop_inv (fuel : nat) : forall n r t,
  retry_loop tr fuel n None = Some (r, t) ->
  exists k h,
    k < fuel /\
    (forall j, j < k -> getContextObject tr (n + j) = None) /\
    getContextObject tr (n + k) = Some h /\
    r = Some h /\ t = retry_trace n k.
Proof.
  induction fuel as [|fuel IH]; intros n r t Hrun; [discriminate|].
  rewrite retry_loop_step in Hrun.
  destruct (getContextObject tr n) as [h|] eqn:Hn.
  - inversion Hrun; subst. exists 0, h.
    rewrite Nat.add_0_r, retry_trace_0. repeat split; auto; lia.
  - destruct (retry_loop tr fuel (S n) None) as [[r' t']|] eqn:Hrest; [|discriminate].
    inversion Hrun; subst.
    destruct (IH (S n) r t' Hrest) as (k & h & Hk & Hfail & Hok & -> & ->).
    exists (S k), h. rewrite retry_trace_S.
    replace (n + S k) with (S n + k) by lia.
    repeat split; auto; try lia.
    intros [|j] Hj; [now rewrite Nat.add_0_r|].
    replace (n + S j) with (S n + j) by lia. apply Hfail. lia.
Qed.

(** If some attempt succeeds, some attempt is the first to succeed. *)
Lemma first_success (k : nat) :
  (forall j, j < k -> getContextObject tr j = None) \/
  (exists k0 h0, k0 < k /\ getContextObject tr k0 = Some h0 /\
                 forall j, j < k0 -> getContextObject tr j = None).
Proof.
  induction k as [|k [Hnone | (k0 & h0 & Hlt & Hok & Hmin)]].
  - left. intros j Hj. lia.
  - destruct (getContextObject tr k) as [h|] eqn:Hk.
    + right. exists k, h. auto.
    + left. intros j Hj. destruct (Nat.eq_dec j k) as [->|Hne]; [exact Hk|].
      apply Hnone. lia.
  - right. exists k0, h0. auto.
Qed.

Lemma defaultServiceManager_probe_ok (fuel : nat) :
  access tr "/dev/hwbinder" = true ->
  defaultServiceManager tr fuel None
  = match retry_loop tr fuel 0 None with
    | None => None
    | Some (g, t) =>
        Some ((g, g),
              EvAccess "/dev/hwbinder" :: EvLock gDefaultServiceManagerLock
              :: t ++ [EvUnlock gDefaultServiceManagerLock])
    end.
Proof.
  intros Hacc. unfold defaultServiceManager. rewrite Hacc. cbn [negb].
  destruct (retry_loop tr fuel 0 None) as [[g t]|]; reflexivity.
Qed.

Lemma defaultServiceManager_probe_failed (fuel : nat) :
  access tr "/dev/hwbinder" = false ->
  defaultServiceManager tr fuel None
  = Some ((None, None), [EvAccess "/dev/hwbinder"]).
Proof.
  intros Hacc. unfold defaultServiceManager. rewrite Hacc. reflexivity.
Qed.

End RegistryFacts.

(** C4. With the probe successful and no handle cached: if attempt [k] of the
    root-object lookup is the first to succeed, with handle [h], then the
    call is still in its loop after [k] iterations or fewer, and with room
    for more than [k] iterations it returns [h], caches it, and has performed
    exactly the lookups 0..k with a sleep of 1 second after each of the [k]
    failed ones, under the lock; if no attempt ever succeeds the call does
    not return, whatever the number of iterations; whenever the call returns
    its result is a handle, never absent; whence it returns if and only if
    some lookup attempt succeeds. *)
Theorem defaultServiceManager_retries_until_success (tr : Transport) :
  access tr "/dev/hwbinder" = true ->
  (forall k h,
     (forall j, j < k -> getContextObject tr j = None) ->
     getContextObject tr k = Some h ->
     forall fuel,
       (fuel <= k -> defaultServiceManager tr fuel None = None) /\
       (k < fuel ->
        defaultServiceManager tr fuel None
        = Some ((Some h, Some h),
                EvAccess "/dev/hwbinder" :: EvLock gDefaultServiceManagerLock
                :: retry_trace 0 k ++ [EvUnlock gDefaultServiceManagerLock]))) /\
  ((forall j, getContextObject tr j = None) ->
   forall fuel, defaultServiceManager tr fuel None = None) /\
  (forall fuel r g t,
     defaultServiceManager tr fuel None = Some ((r, g), t) ->
     r <> None /\ g = r) /\
  ((exists fuel res, defaultServiceManager tr fuel None = Some res) <->
   (exists k h, getContextObject tr k = Some h)).
Proof.
  intros Hacc.
  assert (Hinv : forall fuel r g t,
             defaultServiceManager tr fuel None = Some ((r, g), t) ->
             exists k h, getContextObject tr k = Some h /\ r = Some h /\ g = r).
  { intros fuel r g t Hrun.
    rewrite (defaultServiceManager_probe_ok tr fuel Hacc) in Hrun.
    destruct (retry_loop tr fuel 0 None) as [[g' t']|] eqn:Hloop; [|discriminate].
    destruct (retry_loop_inv tr fuel 0 g' t' Hloop) as (k & h & _ & _ & Hok & Hg' & _).
    injection Hrun as Hr Hg _. exists k, h. simpl in Hok.
    repeat split; congruence. }
  assert (Hrun : forall k h,
             (forall j, j < k -> getContextObject tr j = None) ->
             getContextObject tr k = Some h ->
             forall fuel, k < fuel ->
               defaultServiceManager tr fuel None
               = Some ((Some h, Some h),
                       EvAccess "/dev/hwbinder" :: EvLock gDefaultServiceManagerLock
                       :: retry_trace 0 k ++ [EvUnlock gDefaultServiceManagerLock])).
  { intros k h Hfail Hok fuel Hfuel.
    rewrite (defaultServiceManager_probe_ok tr fuel Hacc).
    rewrite (retry_loop_success tr k fuel 0 h); auto. }
  split; [|split; [|split; [|split]]].
  - intros k h Hfail Hok fuel. split.
    + intros Hfuel. rewrite (defaultServiceManager_probe_ok tr fuel Hacc).
      rewrite retry_loop_starved; [reflexivity|].
      intros j Hj. apply Hfail. simpl. lia.
    + apply Hrun; assumption.
  - intros Hnever fuel. rewrite (defaultServiceManager_probe_ok tr fuel Hacc).
    rewrite retry_loop_starved; [reflexivity|]. intros j _. apply Hnever.
  - intros fuel r g t Hret.
    destruct (Hinv fuel r g t Hret) as (k & h & _ & -> & ->).
    split; [discriminate | reflexivity].
  - intros (fuel & [[r g] t] & Hret).
    destruct (Hinv fuel r g t Hret) as (k & h & Hok & _). eauto.
  - intros (k & h & Hok).
    destruct (first_success tr (S k)) as [Hnone | (k0 & h0 & _ & Hok0 & Hmin)].
    + rewrite Hnone in Hok by lia. discriminate.
    + exists (S k0). eexists. apply (Hrun k0 h0 Hmin Hok0). lia.
Qed.

Lemma defaultServiceManager_retries_until_success_witness :
  defaultServiceManager Device.booting 3 None = None /\
  defaultServiceManager Device.booting 4 None
  = Some ((Some 7, Some 7),
          EvAccess "/dev/hwbinder" :: EvLock gDefaultServiceManagerLock
          :: retry_trace 0 3 ++ [EvUnlock gDefaultServiceManagerLock]).
Proof.
  assert (Hfail : forall j, j < 3 -> getContextObject Device.booting j = None).
  { intros j Hj. simpl. destruct (Nat.ltb_spec j 3); [reflexivity | lia]. }
  pose proof (proj1 (defaultServiceManager_retries_until_success
                       Device.booting eq_refl) 3 7 Hfail eq_refl) as H.
  split.
  - apply (proj1 (H 3)). lia.
  - apply (proj2 (H 4)). lia.
Defined.

(** C8. When the accessibility probe of /dev/hwbinder fails and no handle is
    cached, the call returns absent after the probe alone, whatever the
    number of iterations allowed: no lock is taken, no root-object lookup is
    attempted, nothing sleeps, and the cache stays empty. *)
Theorem defaultServiceManager_absent_without_hwbinder (tr : Transport) (fuel : nat) :
  access tr "/dev/hwbinder" = false ->
  defaultServiceManager tr fuel None
  = Some ((None, None), [EvAccess "/dev/hwbinder"]).
Proof. apply defaultServiceManager_probe_failed. Qed.

Lemma defaultServiceManager_absent_without_hwbinder_witness :
  defaultServiceManager Device.no_hwbinder 0 None
  = Some ((None, None), [EvAccess "/dev/hwbinder"]).
Proof.
  apply (defaultServiceManager_absent_without_hwbinder Device.no_hwbinder 0).
  reflexivity.
Defined.

(** ** Waiter *)

Section WaiterFacts.
Import Waiter.

Lemma signals_app (t1 t2 : Trace) : signals (t1 ++ t2) = signals t1 + signals t2.
Proof. unfold signals. now rewrite filter_app, length_app. Qed.

Lemma sleeps_app (t1 t2 : Trace) : sleeps (t1 ++ t2) = sleeps t1 + sleeps t2.
Proof. unfold sleeps. now rewrite filter_app, length_app. Qed.

Lemma sleeps_repeat (n : nat) : sleeps (repeat EvCondWait n) = n.
Proof. induction n as [|n IH]; [reflexivity|]. unfold sleeps in *. simpl. now rewrite IH. Qed.

Lemma signals_repeat (n : nat) : signals (repeat EvCondWait n) = 0.
Proof. induction n as [|n IH]; [reflexivity | exact IH]. Qed.

Lemma onRegistration_first (fqName name : string) (preexisting : bool) :
  onRegistration fqName name preexisting Waiter.new
  = (registered, [EvLock mMutex; EvUnlock mMutex; EvNotifyOne]).
Proof. reflexivity. Qed.

Lemma onRegistration_again (fqName name : string) (preexisting : bool) (w : Waiter.t) :
  mRegistered w = true ->
  onRegistration fqName name preexisting w = (w, [EvLock mMutex; EvUnlock mMutex]).
Proof. intros Hw. unfold onRegistration. rewrite Hw. reflexivity. Qed.

Lemma wait_loop_registered (w : Waiter.t) (sched : list SchedEvent) :
  mRegistered w = true -> wait_loop w sched = (WaitReturned w sched, []).
Proof. intros Hw. destruct sched; simpl; rewrite Hw; reflexivity. Qed.

(** Without a notification in the schedule the thread sleeps through all of
    it and is asleep at its end. *)
Lemma wait_loop_blocked (sched : list SchedEvent) :
  existsb is_notification sched = false ->
  wait_loop Waiter.new sched
  = (WaitBlocked Waiter.new, repeat EvCondWait (S (List.length sched))).
Proof.
  induction sched as [|ev rest IH]; intros Hnone; [reflexivity|].
  simpl in Hnone. apply orb_false_iff in Hnone. destruct Hnone as [Hev Hrest].
  destruct ev as [fqName name preexisting|]; [discriminate|].
  change (wait_loop Waiter.new (SpuriousWakeup :: rest))
    with (bind (emit EvCondWait)
               (fun _ => bind (ret Waiter.new) (fun w' => wait_loop w' rest))).
  unfold bind, emit, ret. rewrite (IH Hrest). reflexivity.
Qed.

(** The first notification of the schedule ends the wait; what comes after it
    is not consumed. *)
Lemma wait_loop_notified (pre : list SchedEvent) (fqName name : string)
      (preexisting : bool) (post : list SchedEvent) :
  existsb is_notification pre = false ->
  wait_loop Waiter.new (pre ++ Notification fqName name preexisting :: post)
  = (WaitReturned registered post,
     repeat EvCondWait (S (List.length pre))
     ++ [EvLock mMutex; EvUnlock mMutex; EvNotifyOne]).
Proof.
  induction pre as [|ev rest IH]; intros Hnone.
  - destruct post; reflexivity.
  - simpl in Hnone. apply orb_false_iff in Hnone. destruct Hnone as [Hev Hrest].
    destruct ev as [a b c|]; [discriminate|].
    change (wait_loop Waiter.new
              ((SpuriousWakeup :: rest) ++ Notification fqName name preexisting :: post))
      with (bind (emit EvCondWait)
                 (fun _ => bind (ret Waiter.new)
                    (fun w' => wait_loop w'
                       (rest ++ Notification fqName name preexisting :: post)))).
    unfold bind, emit, ret. rewrite (IH Hrest). reflexivity.
Qed.

(** A schedule with a notification splits at its first notification. *)
Lemma first_notification (sched : list SchedEvent) :
  existsb is_notification sched = true ->
  exists pre fqName name preexisting post,
    sched = pre ++ Notification fqName name preexisting :: post /\
    existsb is_notification pre = false.
Proof.
  induction sched as [|ev rest IH]; intros Hsome; [discriminate|].
  destruct ev as [a b c|].
  - exists [], a, b, c, rest. auto.
  - destruct (IH Hsome) as (pre & a & b & c & post & -> & Hpre).
    exists (SpuriousWakeup :: pre), a, b, c, post. auto.
Qed.

Lemma deliver_all_quiet (evs : list SchedEvent) :
  existsb is_notification evs = false ->
  deliver_all evs Waiter.new = (Waiter.new, []).
Proof.
  induction evs as [|ev rest IH]; intros Hnone; [reflexivity|].
  simpl in Hnone. apply orb_false_iff in Hnone. destruct Hnone as [Hev Hrest].
  destruct ev as [a b c|]; [discriminate|].
  simpl. unfold bind, ret. rewrite (IH Hrest). reflexivity.
Qed.

Lemma deliver_all_registered (evs : list SchedEvent) : forall w,
  mRegistered w = true ->
  fst (deliver_all evs w) = w /\
  signals (snd (deliver_all evs w)) = 0 /\ sleeps (snd (deliver_all evs w)) = 0.
Proof.
  induction evs as [|ev rest IH]; intros w Hw; [auto|].
  simpl. unfold bind.
  destruct ev as [a b c|]; simpl.
  - rewrite (onRegistration_again a b c w Hw).
    destruct (IH w Hw) as (Hst & Hsig & Hsl).
    destruct (deliver_all rest w) as [w' t']. simpl in *. auto.
  - destruct (IH w Hw) as (Hst & Hsig & Hsl).
    destruct (deliver_all rest w) as [w' t']. simpl in *. auto.
Qed.

Lemma deliver_all_notified (evs : list SchedEvent) :
  existsb is_notification evs = true ->
  fst (deliver_all evs Waiter.new) = registered /\
  signals (snd (deliver_all evs Waiter.new)) = 1 /\
  sleeps (snd (deliver_all evs Waiter.new)) = 0.
Proof.
  intros Hsome.
  destruct (first_notification evs Hsome) as (pre & a & b & c & post & -> & Hpre).
  clear Hsome. induction pre as [|ev pre IH].
  - cbn [app deliver_all deliver]. unfold bind. rewrite onRegistration_first.
    destruct (deliver_all_registered post registered eq_refl) as (Hst & Hsig & Hsl).
    destruct (deliver_all post registered) as [w' t']. simpl in *.
    unfold signals, sleeps in *. simpl. auto.
  - simpl in Hpre. apply orb_false_iff in Hpre. destruct Hpre as [Hev Hpre].
    destruct ev as [|]; [discriminate|].
    specialize (IH Hpre). simpl. unfold bind, ret. simpl.
    destruct (deliver_all (pre ++ Notification a b c :: post) Waiter.new) as [w' t'].
    exact IH.
Qed.

(** wait() on a registered waiter returns at once. *)
Lemma wait_registered (w : Waiter.t) (sched : list SchedEvent) :
  mRegistered w = true ->
  wait w sched = (WaitReturned w sched, [EvLock mMutex; EvUnlock mMutex]).
Proof.
  intros Hw. unfold wait, bind, emit. rewrite (wait_loop_registered w sched Hw).
  reflexivity.
Qed.

Lemma wait_blocked (sched : list SchedEvent) :
  existsb is_notification sched = false ->
  wait Waiter.new sched
  = (WaitBlocked Waiter.new, EvLock mMutex :: repeat EvCondWait (S (List.length sched))).
Proof.
  intros Hnone. unfold wait, bind, emit. rewrite (wait_loop_blocked sched Hnone).
  unfold ret. simpl. now rewrite app_nil_r.
Qed.

Lemma wait_notified (pre : list SchedEvent) (fqName name : string)
      (preexisting : bool) (post : list SchedEvent) :
  existsb is_notification pre = false ->
  wait Waiter.new (pre ++ Notification fqName name preexisting :: post)
  = (WaitReturned registered post,
     EvLock mMutex :: repeat EvCondWait (S (List.length pre))
     ++ [EvLock mMutex; EvUnlock mMutex; EvNotifyOne; EvUnlock mMutex]).
Proof.
  intros Hnone. unfold wait, bind, emit.
  rewrite (wait_loop_notified pre fqName name preexisting post Hnone).
  unfold ret. cbn [fst snd]. rewrite app_nil_r.
  cbn [app]. rewrite <- app_assoc. reflexivity.
Qed.

(** What one operation does to a waiter. *)
Lemma step_registered (op : Op) (w : Waiter.t) :
  mRegistered w = true ->
  fst (step op w) = w /\ signals (snd (step op w)) = 0.
Proof.
  intros Hw. destruct op as [a b c|sched]; simpl.
  - rewrite (onRegistration_again a b c w Hw). auto.
  - unfold bind. rewrite (wait_registered w sched Hw). auto.
Qed.

Lemma step_new (op : Op) :
  fst (step op Waiter.new) = {| mRegistered := notifies op |} /\
  signals (snd (step op Waiter.new)) = if notifies op then 1 else 0.
Proof.
  destruct op as [a b c|sched]; simpl.
  - auto.
  - unfold bind. destruct (existsb is_notification sched) eqn:Hs.
    + destruct (first_notification sched Hs) as (pre & a & b & c & post & -> & Hpre).
      rewrite (wait_notified pre a b c post Hpre). cbn [fst snd waiter_of ret].
      split; [reflexivity|].
      rewrite app_nil_r.
      change (signals ([EvLock mMutex]
                       ++ repeat EvCondWait (S (List.length pre))
                       ++ [EvLock mMutex; EvUnlock mMutex; EvNotifyOne; EvUnlock mMutex])
              = 1).
      rewrite !signals_app, signals_repeat. reflexivity.
    + rewrite (wait_blocked sched Hs). cbn [fst snd waiter_of ret].
      split; [reflexivity|].
      rewrite app_nil_r.
      change (signals ([EvLock mMutex] ++ repeat EvCondWait (S (List.length sched))) = 0).
      rewrite signals_app, signals_repeat. reflexivity.
Qed.

Lemma run_registered (ops : list Op) : forall w,
  mRegistered w = true ->
  fst (run ops w) = w /\ signals (snd (run ops w)) = 0.
Proof.
  induction ops as [|op rest IH]; intros w Hw; [auto|].
  simpl. unfold bind.
  destruct (step_registered op w Hw) as [Hst Hsig].
  destruct (step op w) as [w' t]. simpl in Hst, Hsig. subst w'.
  destruct (IH w Hw) as [Hst' Hsig'].
  destruct (run rest w) as [w'' t']. simpl in *.
  rewrite signals_app. split; [assumption | lia].
Qed.

Lemma run_new (ops : list Op) :
  mRegistered (fst (run ops Waiter.new)) = existsb notifies ops /\
  signals (snd (run ops Waiter.new)) = if existsb notifies ops then 1 else 0.
Proof.
  induction ops as [|op rest IH]; [auto|].
  simpl. unfold bind.
  destruct (step_new op) as [Hst Hsig].
  destruct (step op Waiter.new) as [w' t]. simpl in Hst, Hsig. subst w'.
  destruct (notifies op) eqn:Hop; simpl.
  - destruct (run_registered rest registered eq_refl) as [Hst' Hsig'].
    fold registered.
    destruct (run rest registered) as [w'' t']. simpl in *.
    subst w''. rewrite signals_app. split; [reflexivity | lia].
  - fold Waiter.new.
    destruct (run rest Waiter.new) as [w'' t']. simpl in *.
    rewrite signals_app, Hsig. exact IH.
Qed.

End WaiterFacts.

(** C7. A fresh waiter makes the transition on its first callback, with one
    signal; a callback on a registered waiter leaves it as it is and signals
    nothing; no run of operations (callbacks and waits, in any order) takes a
    registered waiter back, nor signals; and in any run of operations from a
    fresh waiter the condition variable is signalled once if some callback
    arrives and never otherwise, the final state being registered exactly in
    the first case. *)
Theorem waiter_transition_fires_once :
  (forall fqName name preexisting,
     Waiter.onRegistration fqName name preexisting Waiter.new
     = (Waiter.registered, [EvLock mMutex; EvUnlock mMutex; EvNotifyOne])) /\
  (forall fqName name preexisting w,
     Waiter.mRegistered w = true ->
     Waiter.onRegistration fqName name preexisting w
     = (w, [EvLock mMutex; EvUnlock mMutex])) /\
  (forall ops w,
     Waiter.mRegistered w = true ->
     fst (Waiter.run ops w) = w /\ Waiter.signals (snd (Waiter.run ops w)) = 0) /\
  (forall ops,
     Waiter.mRegistered (fst (Waiter.run ops Waiter.new)) = existsb Waiter.notifies ops /\
     Waiter.signals (snd (Waiter.run ops Waiter.new))
     = if existsb Waiter.notifies ops then 1 else 0).
Proof.
  split; [|split; [|split]].
  - exact onRegistration_first.
  - exact onRegistration_again.
  - exact run_registered.
  - exact run_new.
Qed.

Lemma waiter_transition_fires_once_witness :
  Waiter.onRegistration "android.hardware.foo@1.0::IFoo" "default" false Waiter.registered
  = (Waiter.registered, [EvLock mMutex; EvUnlock mMutex]) /\
  fst (Waiter.run [Waiter.OpOnRegistration "a" "b" true; Waiter.OpWait [];
                   Waiter.OpOnRegistration "c" "d" false] Waiter.registered)
  = Waiter.registered.
Proof.
  split.
  - apply (proj1 (proj2 waiter_transition_fires_once)). reflexivity.
  - apply (proj1 (proj2 (proj2 waiter_transition_fires_once))). reflexivity.
Defined.

(** ** waitForHwService *)

(** The call can only return absent through the failed probe. *)
Lemma defaultServiceManager_absent_inv (tr : Transport) (fuel : nat)
      (g g' : option RegistryHandle) (t : Trace) :
  defaultServiceManager tr fuel g = Some ((None, g'), t) ->
  g' = None /\ t = [EvAccess "/dev/hwbinder"].
Proof.
  intros Hrun. destruct g as [h|]; [discriminate|].
  destruct (access tr "/dev/hwbinder") eqn:Hacc.
  - rewrite (defaultServiceManager_probe_ok tr fuel Hacc) in Hrun.
    destruct (retry_loop tr fuel 0 None) as [[r t']|] eqn:Hloop; [|discriminate].
    destruct (retry_loop_inv tr fuel 0 r t' Hloop) as (k & h & _ & _ & _ & Hr & _).
    subst r. discriminate.
  - rewrite (defaultServiceManager_probe_failed tr fuel Hacc) in Hrun.
    inversion Hrun. auto.
Qed.

Lemma waitForHwService_with_manager (tr : Transport) (interface instanceName : string)
      (fuel : nat) (g : option RegistryHandle) (before during : list Waiter.SchedEvent)
      (m : RegistryHandle) (g' : option RegistryHandle) (t : Trace) :
  defaultServiceManager tr fuel g = Some ((Some m, g'), t) ->
  waitForHwService tr interface instanceName fuel g before during
  = Some
      (match remote_registerForNotifications tr m interface instanceName with
       | TransportError description =>
           ((None, g'),
            t ++ [EvRegisterForNotifications m interface instanceName;
                  EvLog ERROR ("Transport error, " ++ description ++
                               ", during notification registration for " ++
                               interface ++ "/" ++ instanceName ++ ".")%string])
       | Ok false =>
           ((None, g'),
            t ++ [EvRegisterForNotifications m interface instanceName;
                  EvLog ERROR ("Could not register for notifications for " ++
                               interface ++ "/" ++ instanceName ++ ".")%string])
       | Ok true =>
           let d := Waiter.deliver_all before Waiter.new in
           let w := Waiter.wait (fst d) during in
           ((Some (fst w), g'),
            t ++ EvRegisterForNotifications m interface instanceName
              :: snd d ++ snd w)
       end).
Proof.
  intros Hdsm. unfold waitForHwService. rewrite Hdsm. f_equal.
  unfold bind, emit, LOG, emit, ret. cbn [fst snd].
  destruct (remote_registerForNotifications tr m interface instanceName) as [[|]|d].
  - destruct (Waiter.deliver_all before Waiter.new) as [w' tb]. cbn [fst snd].
    destruct (Waiter.wait w' during) as [r tw]. cbn [fst snd app].
    now rewrite app_nil_r.
  - reflexivity.
  - reflexivity.
Qed.

(** C3. waitForHwService, for every pair of names, every cached state and
    every schedule.  When the registry handle is absent the run is the probe
    and the error report, and wait() is not called.  When the registration
    call fails at the transport level, or answers false, what follows the
    call is the error report alone, and wait() is not called.  When it
    answers true the caller enters wait(), and from there: it returns only
    with a registered waiter; if a notification arrived before it entered, it
    returns without sleeping; if the first notification is the event after
    [pre], it sleeps across [pre] and that notification and then returns,
    leaving [post] unconsumed; and if no notification arrives it is still
    asleep at the end of the schedule, however long that is. *)
Theorem waitForHwService_blocks_until_registered
  (tr : Transport) (interface instanceName : string) (fuel : nat)
  (g : option RegistryHandle) (before during : list Waiter.SchedEvent) :
  (forall g' t,
     defaultServiceManager tr fuel g = Some ((None, g'), t) ->
     waitForHwService tr interface instanceName fuel g before during
     = Some ((None, None),
             [EvAccess "/dev/hwbinder";
              EvLog ERROR "Could not get default service manager."])) /\
  (forall m g' t description,
     defaultServiceManager tr fuel g = Some ((Some m, g'), t) ->
     remote_registerForNotifications tr m interface instanceName
     = TransportError description ->
     waitForHwService tr interface instanceName fuel g before during
     = Some ((None, g'),
             t ++ [EvRegisterForNotifications m interface instanceName;
                   EvLog ERROR ("Transport error, " ++ description ++
                                ", during notification registration for " ++
                                interface ++ "/" ++ instanceName ++ ".")%string])) /\
  (forall m g' t,
     defaultServiceManager tr fuel g = Some ((Some m, g'), t) ->
     remote_registerForNotifications tr m interface instanceName = Ok false ->
     waitForHwService tr interface instanceName fuel g before during
     = Some ((None, g'),
             t ++ [EvRegisterForNotifications m interface instanceName;
                   EvLog ERROR ("Could not register for notifications for " ++
                                interface ++ "/" ++ instanceName ++ ".")%string])) /\
  (forall m g' t,
     defaultServiceManager tr fuel g = Some ((Some m, g'), t) ->
     remote_registerForNotifications tr m interface instanceName = Ok true ->
     exists r t',
       waitForHwService tr interface instanceName fuel g before during
       = Some ((Some r, g'),
               t ++ EvRegisterForNotifications m interface instanceName :: t') /\
       (forall w remaining,
          r = Waiter.WaitReturned w remaining -> Waiter.mRegistered w = true) /\
       (existsb Waiter.is_notification before = true ->
        r = Waiter.WaitReturned Waiter.registered during /\ Waiter.sleeps t' = 0) /\
       (existsb Waiter.is_notification before = false ->
        forall pre fqName name preexisting post,
          during = pre ++ Waiter.Notification fqName name preexisting :: post ->
          existsb Waiter.is_notification pre = false ->
          r = Waiter.WaitReturned Waiter.registered post /\
          Waiter.sleeps t' = S (List.length pre)) /\
       (existsb Waiter.is_notification before = false ->
        existsb Waiter.is_notification during = false ->
        r = Waiter.WaitBlocked Waiter.new /\
        Waiter.sleeps t' = S (List.length during))).
Proof.
  split; [|split; [|split]].
  - intros g' t Hdsm.
    destruct (defaultServiceManager_absent_inv tr fuel g g' t Hdsm) as [-> ->].
    unfold waitForHwService. rewrite Hdsm. reflexivity.
  - intros m g' t d Hdsm Hreg.
    rewrite (waitForHwService_with_manager tr interface instanceName fuel g
               before during m g' t Hdsm), Hreg. reflexivity.
  - intros m g' t Hdsm Hreg.
    rewrite (waitForHwService_with_manager tr interface instanceName fuel g
               before during m g' t Hdsm), Hreg. reflexivity.
  - intros m g' t Hdsm Hreg.
    rewrite (waitForHwService_with_manager tr interface instanceName fuel g
               before during m g' t Hdsm), Hreg. cbv zeta.
    eexists. eexists. split; [reflexivity|].
    destruct (existsb Waiter.is_notification before) eqn:Hbefore.
    + destruct (deliver_all_notified before Hbefore) as (Hst & _ & Hsl).
      destruct (Waiter.deliver_all before Waiter.new) as [w' tb].
      cbn [fst snd] in *. subst w'.
      rewrite (wait_registered Waiter.registered during eq_refl). cbn [fst snd].
      split; [|split; [|split]]; try discriminate.
      * intros w remaining Hr. inversion Hr. reflexivity.
      * intros _. split; [reflexivity|].
        rewrite sleeps_app, Hsl. reflexivity.
    + rewrite (deliver_all_quiet before Hbefore). cbn [fst snd app].
      split; [|split; [|split]]; try discriminate.
      * intros w remaining Hr.
        destruct (existsb Waiter.is_notification during) eqn:Hduring.
        -- destruct (first_notification during Hduring)
             as (pre & a & b & c & post & -> & Hpre).
           rewrite (wait_notified pre a b c post Hpre) in Hr.
           inversion Hr. reflexivity.
        -- rewrite (wait_blocked during Hduring) in Hr. discriminate.
      * intros _ pre a b c post -> Hpre.
        rewrite (wait_notified pre a b c post Hpre). cbn [fst snd].
        split; [reflexivity|].
        change (Waiter.sleeps ([EvLock mMutex]
                               ++ repeat EvCondWait (S (List.length pre))
                               ++ [EvLock mMutex; EvUnlock mMutex; EvNotifyOne;
                                   EvUnlock mMutex])
                = S (List.length pre)).
        rewrite !sleeps_app, sleeps_repeat.
        change (Waiter.sleeps [EvLock mMutex]) with 0.
        change (Waiter.sleeps [EvLock mMutex; EvUnlock mMutex; EvNotifyOne;
                               EvUnlock mMutex]) with 0.
        lia.
      * intros _ Hduring.
        rewrite (wait_blocked during Hduring). cbn [fst snd].
        split; [reflexivity|].
        change (Waiter.sleeps ([EvLock mMutex] ++ repeat EvCondWait (S (List.length during)))
                = S (List.length during)).
        rewrite sleeps_app, sleeps_repeat. reflexivity.
Qed.

Lemma waitForHwService_blocks_until_registered_witness :
  waitForHwService Device.no_hwbinder "android.hardware.foo@1.0::IFoo" "default"
                   5 None [] [Waiter.Notification "x" "y" true]
  = Some ((None, None),
          [EvAccess "/dev/hwbinder";
           EvLog ERROR "Could not get default service manager."]) /\
  waitForHwService Device.booting "android.hardware.baz@1.0::IBaz" "default"
                   5 (Some 7) [] [Waiter.Notification "x" "y" true]
  = Some ((None, Some 7),
          [EvRegisterForNotifications 7 "android.hardware.baz@1.0::IBaz" "default";
           EvLog ERROR "Transport error, DEAD_OBJECT, during notification registration for android.hardware.baz@1.0::IBaz/default."]) /\
  waitForHwService Device.booting "android.hardware.bar@1.0::IBar" "default"
                   5 (Some 7) [] [Waiter.Notification "x" "y" true]
  = Some ((None, Some 7),
          [EvRegisterForNotifications 7 "android.hardware.bar@1.0::IBar" "default";
           EvLog ERROR "Could not register for notifications for android.hardware.bar@1.0::IBar/default."]) /\
  (exists r t',
     waitForHwService Device.booting "android.hardware.foo@1.0::IFoo" "default"
                      5 (Some 7) [] [Waiter.SpuriousWakeup]
     = Some ((Some r, Some 7),
             [] ++ EvRegisterForNotifications 7 "android.hardware.foo@1.0::IFoo" "default"
                :: t') /\
     r = Waiter.WaitBlocked Waiter.new /\ Waiter.sleeps t' = 2).
Proof.
  split; [|split; [|split]].
  - apply (proj1 (waitForHwService_blocks_until_registered
                    Device.no_hwbinder "android.hardware.foo@1.0::IFoo" "default"
                    5 None [] [Waiter.Notification "x" "y" true])
                 None [EvAccess "/dev/hwbinder"]).
    reflexivity.
  - apply (proj1 (proj2 (waitForHwService_blocks_until_registered
                    Device.booting "android.hardware.baz@1.0::IBaz" "default"
                    5 (Some 7) [] [Waiter.Notification "x" "y" true]))
                 7 (Some 7) [] "DEAD_OBJECT"); reflexivity.
  - apply (proj1 (proj2 (proj2 (waitForHwService_blocks_until_registered
                    Device.booting "android.hardware.bar@1.0::IBar" "default"
                    5 (Some 7) [] [Waiter.Notification "x" "y" true])))
                 7 (Some 7) []); reflexivity.
  - destruct (proj2 (proj2 (proj2 (waitForHwService_blocks_until_registered
                    Device.booting "android.hardware.foo@1.0::IFoo" "default"
                    5 (Some 7) [] [Waiter.SpuriousWakeup])))
                 7 (Some 7) [] eq_refl eq_refl)
      as (r & t' & Hrun & _ & _ & _ & Hblocked).
    exists r, t'. split; [exact Hrun|]. apply Hblocked; reflexivity.
Defined.

(** C10. onRegistration does not look at its arguments: on any waiter, two
    calls with different arguments do the same; the first call on a fresh
    waiter registers it and signals, whatever pair it reports; and a caller
    that registered for one (interface, instance) pair and sleeps in wait()
    is released by a notification that reports any pair at all. *)
Theorem onRegistration_ignores_arguments :
  (forall fqName name preexisting fqName' name' preexisting' w,
     Waiter.onRegistration fqName name preexisting w
     = Waiter.onRegistration fqName' name' preexisting' w) /\
  (forall fqName name preexisting,
     Waiter.onRegistration fqName name preexisting Waiter.new
     = (Waiter.registered, [EvLock mMutex; EvUnlock mMutex; EvNotifyOne])) /\
  (forall tr interface instanceName fuel m fqName name preexisting post,
     remote_registerForNotifications tr m interface instanceName = Ok true ->
     waitForHwService tr interface instanceName fuel (Some m) []
                      (Waiter.Notification fqName name preexisting :: post)
     = Some ((Some (Waiter.WaitReturned Waiter.registered post), Some m),
             [EvRegisterForNotifications m interface instanceName;
              EvLock mMutex; EvCondWait;
              EvLock mMutex; EvUnlock mMutex; EvNotifyOne; EvUnlock mMutex])).
Proof.
  split; [|split].
  - reflexivity.
  - reflexivity.
  - intros tr interface instanceName fuel m fqName name preexisting post Hreg.
    rewrite (waitForHwService_with_manager tr interface instanceName fuel (Some m)
               [] (Waiter.Notification fqName name preexisting :: post)
               m (Some m) [] eq_refl), Hreg.
    cbv zeta. cbn [Waiter.deliver_all ret fst snd].
    pose proof (wait_notified [] fqName name preexisting post eq_refl) as Hwait.
    cbn [app] in Hwait. rewrite Hwait. reflexivity.
Qed.

Lemma onRegistration_ignores_arguments_witness :
  waitForHwService Device.booting "android.hardware.foo@1.0::IFoo" "default" 0 (Some 7) []
                   [Waiter.Notification "android.hardware.bar@1.0::IBar" "other" false]
  = Some ((Some (Waiter.WaitReturned Waiter.registered []), Some 7),
          [EvRegisterForNotifications 7 "android.hardware.foo@1.0::IFoo" "default";
           EvLock mMutex; EvCondWait;
           EvLock mMutex; EvUnlock mMutex; EvNotifyOne; EvUnlock mMutex]).
Proof.
  apply (proj2 (proj2 onRegistration_ignores_arguments) Device.booting).
  reflexivity.
Defined.

(** * Further properties of the code *)

(** ** defaultServiceManager: the cache and the lock *)




(** The three ways in which the call returns. *)
Lemma defaultServiceManager_returns (tr : Transport) (fuel : nat)
      (g r g' : option RegistryHandle) (t : Trace) :
  defaultServiceManager tr fuel g = Some ((r, g'), t) ->
  (exists h, g = Some h /\ r = Some h /\ g' = Some h /\ t = []) \/
  (g = None /\ access tr "/dev/hwbinder" = false /\
   r = None /\ g' = None /\ t = [EvAccess "/dev/hwbinder"]) \/
  (exists k h,
     g = None /\ access tr "/dev/hwbinder" = true /\ k < fuel /\
     (forall j, j < k -> getContextObject tr j = None) /\
     getContextObject tr k = Some h /\
     r = Some h /\ g' = Some h /\
     t = EvAccess "/dev/hwbinder" :: EvLock gDefaultServiceManagerLock
         :: retry_trace 0 k ++ [EvUnlock gDefaultServiceManagerLock]).
Proof.
  intros Hrun. destruct g as [h|].
  - left. exists h. inversion Hrun. auto.
  - right. destruct (access tr "/dev/hwbinder") eqn:Hacc.
    + right. rewrite (defaultServiceManager_probe_ok tr fuel Hacc) in Hrun.
      destruct (retry_loop tr fuel 0 None) as [[r0 t0]|] eqn:Hloop; [|discriminate].
      destruct (retry_loop_inv tr fuel 0 r0 t0 Hloop)
        as (k & h & Hk & Hfail & Hok & -> & ->).
      injection Hrun as <- <- <-. exists k, h. simpl in Hok. repeat split; auto.
    + left. rewrite (defaultServiceManager_probe_failed tr fuel Hacc) in Hrun.
      inversion Hrun. auto.
Qed.

(** X1. Whenever the call returns a handle, that handle is what it leaves in
    the cache, and every later call, on any transport (even one whose
    /dev/hwbinder is gone) and for any number of iterations, returns the same
    handle without a single event: no probe, no lock, no lookup. *)
Theorem defaultServiceManager_reuses_cached_handle
  (tr : Transport) (fuel : nat) (g g' : option RegistryHandle)
  (h : RegistryHandle) (t : Trace) :
  defaultServiceManager tr fuel g = Some ((Some h, g'), t) ->
  g' = Some h /\
  forall tr' fuel',
    defaultServiceManager tr' fuel' g' = Some ((Some h, Some h), []).
Proof.
  intros Hrun.
  assert (Hg : g' = Some h).
  { destruct (defaultServiceManager_returns tr fuel g (Some h) g' t Hrun)
      as [(h0 & _ & Hr & Hg & _) | [(_ & _ & Hr & _) | (k & h0 & _ & _ & _ & _ & _ & Hr & Hg & _)]];
      congruence. }
  split; [exact Hg|]. intros tr' fuel'. rewrite Hg. reflexivity.
Qed.

Lemma defaultServiceManager_reuses_cached_handle_witness :
  defaultServiceManager Device.no_hwbinder 0 (Some 7) = Some ((Some 7, Some 7), []).
Proof.
  apply (proj2 (defaultServiceManager_reuses_cached_handle
                  Device.booting 4 None (Some 7) 7
                  (EvAccess "/dev/hwbinder" :: EvLock gDefaultServiceManagerLock
                   :: retry_trace 0 3 ++ [EvUnlock gDefaultServiceManagerLock])
                  eq_refl)).
Defined.

(** X2. The call returns absent in one situation only: nothing was cached
    and the probe of /dev/hwbinder failed.  The absence is not cached, so the
    next call probes again. *)
Theorem defaultServiceManager_absent_only_after_failed_probe
  (tr : Transport) (fuel : nat) (g g' : option RegistryHandle) (t : Trace) :
  defaultServiceManager tr fuel g = Some ((None, g'), t) ->
  g = None /\ access tr "/dev/hwbinder" = false /\
  g' = None /\ t = [EvAccess "/dev/hwbinder"].
Proof.
  intros Hrun.
  destruct (defaultServiceManager_returns tr fuel g None g' t Hrun)
    as [(h0 & _ & Hr & _) | [(Hg & Hacc & _ & Hg' & Ht) | (k & h0 & _ & _ & _ & _ & _ & Hr & _)]];
    try discriminate.
  auto.
Qed.

Lemma defaultServiceManager_absent_only_after_failed_probe_witness :
  access Device.no_hwbinder "/dev/hwbinder" = false.
Proof.
  apply (defaultServiceManager_absent_only_after_failed_probe
           Device.no_hwbinder 3 None None [EvAccess "/dev/hwbinder"] eq_refl).
Defined.



(** ** search: the empty pattern *)

Lemma StartsWith_empty (s : string) : StringHelper.StartsWith s "" = true.
Proof. apply StartsWith_iff. exists s. reflexivity. Qed.

Lemma append_empty_r (s : string) : (s ++ "")%string = s.
Proof. induction s as [|c s IH]; simpl; [reflexivity | now rewrite IH]. Qed.

Lemma EndsWith_empty (s : string) : StringHelper.EndsWith s "" = true.
Proof. apply EndsWith_iff. exists s. now rewrite append_empty_r. Qed.

(** X4. With the empty prefix and the empty suffix nothing is filtered out:
    search returns the name of every entry of the directory, the entries
    "." and ".." and the subdirectories included, in directory order. *)
Theorem search_empty_pattern_lists_every_entry
  (ld : Loader) (path : string) (entries : list dirent) :
  opendir ld path = Some entries ->
  fst (search ld path "" "") = map d_name entries.
Proof.
  intros Hopen. unfold search, bind, emit, ret. rewrite Hopen. cbn [fst].
  rewrite readdir_loop_filter. cbn [app]. unfold scan_spec.
  induction (map d_name entries) as [|n ns IH]; [reflexivity|].
  simpl. rewrite StartsWith_empty, EndsWith_empty. simpl. now rewrite IH.
Qed.

Lemma search_empty_pattern_lists_every_entry_witness :
  fst (search Device.loader Device.VENDOR "" "")
  = [ "."; ".."; "android.hardware.foo@1.0-impl.so"; "android.hardware.baz@1.0-impl.so" ].
Proof.
  apply (search_empty_pattern_lists_every_entry
           Device.loader Device.VENDOR Device.vendor_entries eq_refl).
Defined.

(** ** PassthroughServiceManager::get: what every run does *)

Section GetFacts.
Variable ld : Loader.

(** What it takes to be a candidate of a root. *)
Lemma candidates_In (iface : FQName.t) (root lib : string) :
  In lib (candidates ld iface root) <->
  exists entries,
    opendir ld root = Some entries /\
    (exists dp, In dp entries /\ d_name dp = lib) /\
    (exists rest, lib = ((FQName.getPackageAndVersion iface ++ "-impl") ++ rest)%string) /\
    (exists front, lib = (front ++ ".so")%string).
Proof.
  unfold candidates, search, bind, emit, ret.
  destruct (opendir ld root) as [entries|]; cbn [fst].
  - rewrite readdir_loop_filter. cbn [app]. rewrite scan_spec_In. split.
    + intros H. exists entries. split; [reflexivity | exact H].
    + intros (entries' & Heq & H). inversion Heq; subst. exact H.
  - split; [intros [] | intros (entries & Heq & _); discriminate].
Qed.

Lemma try_libs_loads (path : string) (libs : list string) (p : string) :
  In p (dlopens (snd (PassthroughServiceManager.try_libs ld path libs))) ->
  exists lib, In lib libs /\ p = (path ++ lib)%string.
Proof.
  pose proof (try_libs_char ld path libs) as Hchar.
  destruct (PassthroughServiceManager.try_libs ld path libs) as [[[h lib]|] t];
    cbn [snd].
  - destruct Hchar as (l1 & l2 & -> & _ & _ & ->).
    unfold load_events. rewrite dlopens_of_loads, in_map_iff.
    intros (l & <- & Hl). exists l. split; [|reflexivity].
    apply in_app_iff in Hl. apply in_app_iff.
    destruct Hl as [Hl | [<- | []]]; [now left | right; now left].
  - destruct Hchar as [-> _].
    unfold load_events. rewrite dlopens_of_loads, in_map_iff.
    intros (l & <- & Hl). exists l. auto.
Qed.

Lemma load_events_search (path : string) (libs : list string) :
  forallb is_search_event (load_events path libs) = true.
Proof. induction libs as [|lib libs IH]; [reflexivity | exact IH]. Qed.

Lemma try_libs_events (path : string) (libs : list string) :
  forallb is_search_event (snd (PassthroughServiceManager.try_libs ld path libs)) = true /\
  opendirs (snd (PassthroughServiceManager.try_libs ld path libs)) = [].
Proof.
  pose proof (try_libs_char ld path libs) as Hchar.
  destruct (PassthroughServiceManager.try_libs ld path libs) as [[[h lib]|] t];
    cbn [snd].
  - destruct Hchar as (l1 & l2 & _ & _ & _ & ->).
    split; [apply load_events_search | apply opendirs_of_loads].
  - destruct Hchar as [-> _].
    split; [apply load_events_search | apply opendirs_of_loads].
Qed.

Lemma dlopens_ambiguity (b : bool) (libs : list string) (t : Trace) :
  dlopens ((if b then [ambiguity_warning libs] else []) ++ t) = dlopens t.
Proof. destruct b; reflexivity. Qed.

Lemma opendirs_ambiguity (b : bool) (libs : list string) (t : Trace) :
  opendirs ((if b then [ambiguity_warning libs] else []) ++ t) = opendirs t.
Proof. destruct b; reflexivity. Qed.

(** One round of the outer loop, with the warning named. *)
Lemma try_paths_round (iface : FQName.t) (path : string) (rest : list string) :
  PassthroughServiceManager.try_paths ld iface (path :: rest)
  = let libs := candidates ld iface path in
    let warn := if Nat.ltb 1 (List.length libs) then [ambiguity_warning libs] else [] in
    let (r, t) := PassthroughServiceManager.try_libs ld path libs in
    match r with
    | Some found => (Some found, EvOpendir path :: warn ++ t)
    | None =>
        let (r', t') := PassthroughServiceManager.try_paths ld iface rest in
        (r', EvOpendir path :: warn ++ t ++ t')
    end.
Proof. apply try_paths_cons. Qed.

Lemma try_paths_events (iface : FQName.t) (paths : list string) :
  forallb is_search_event (snd (PassthroughServiceManager.try_paths ld iface paths)) = true.
Proof.
  induction paths as [|path rest IH]; [reflexivity|].
  rewrite try_paths_round. cbv zeta.
  destruct (try_libs_events path (candidates ld iface path)) as [Hev _].
  destruct (PassthroughServiceManager.try_libs ld path (candidates ld iface path))
    as [[found|] t]; cbn [snd] in Hev.
  - cbn [snd forallb is_search_event andb]. rewrite forallb_app, Hev.
    destruct (Nat.ltb 1 _); reflexivity.
  - destruct (PassthroughServiceManager.try_paths ld iface rest) as [r' t'].
    cbn [snd] in IH. cbn [snd forallb is_search_event andb].
    rewrite !forallb_app, Hev, IH. destruct (Nat.ltb 1 _); reflexivity.
Qed.

(** The library the loops settle on is a candidate of one of the roots. *)
Lemma try_paths_loaded_from (iface : FQName.t) (paths : list string)
      (h : LibHandle) (lib : string) :
  fst (PassthroughServiceManager.try_paths ld iface paths) = Some (h, lib) ->
  exists root,
    In root paths /\ In lib (candidates ld iface root) /\
    dlopen ld (root ++ lib)%string = Some h.
Proof.
  induction paths as [|path rest IH]; [discriminate|].
  rewrite try_paths_round. cbv zeta.
  pose proof (try_libs_char ld path (candidates ld iface path)) as Hchar.
  destruct (PassthroughServiceManager.try_libs ld path (candidates ld iface path))
    as [[[h0 lib0]|] t].
  - destruct Hchar as (l1 & l2 & Hsplit & _ & Hok & _).
    cbn [fst]. intros Heq. inversion Heq; subst h0 lib0.
    exists path. split; [now left|]. split; [|exact Hok].
    rewrite Hsplit. apply in_app_iff. right. now left.
  - destruct (PassthroughServiceManager.try_paths ld iface rest) as [r' t'].
    cbn [fst] in *. intros Heq.
    destruct (IH Heq) as (root & Hin & Hcand & Hok).
    exists root. split; [now right | auto].
Qed.

(** Every load the loops attempt is of a candidate of one of the roots. *)
Lemma try_paths_loads (iface : FQName.t) (paths : list string) (p : string) :
  In p (dlopens (snd (PassthroughServiceManager.try_paths ld iface paths))) ->
  exists root lib,
    In root paths /\ In lib (candidates ld iface root) /\ p = (root ++ lib)%string.
Proof.
  induction paths as [|path rest IH]; [intros []|].
  rewrite try_paths_round. cbv zeta.
  pose proof (try_libs_loads path (candidates ld iface path) p) as Hhere.
  destruct (PassthroughServiceManager.try_libs ld path (candidates ld iface path))
    as [[found|] t]; cbn [snd] in Hhere.
  - cbn [snd]. simpl dlopens. rewrite dlopens_ambiguity. intros Hp.
    destruct (Hhere Hp) as (lib & Hlib & ->).
    exists path, lib. split; [now left | auto].
  - destruct (PassthroughServiceManager.try_paths ld iface rest) as [r' t'].
    cbn [snd] in *. simpl dlopens. rewrite dlopens_ambiguity, dlopens_app, in_app_iff.
    intros [Hp | Hp].
    + destruct (Hhere Hp) as (lib & Hlib & ->).
      exists path, lib. split; [now left | auto].
    + destruct (IH Hp) as (root & lib & Hin & Hlib & ->).
      exists root, lib. split; [now right | auto].
Qed.

(** When nothing loads, the loops go through every root and every candidate. *)
Lemma try_paths_exhausted (iface : FQName.t) (paths : list string) :
  (forall root lib, In root paths -> In lib (candidates ld iface root) ->
                    dlopen ld (root ++ lib)%string = None) ->
  let res := PassthroughServiceManager.try_paths ld iface paths in
  fst res = None /\
  opendirs (snd res) = paths /\
  dlopens (snd res)
  = flat_map (fun p => map (String.append p) (candidates ld iface p)) paths.
Proof.
  intros Hfail. induction paths as [|path rest IH]; cbv zeta; [auto|].
  rewrite try_paths_round. cbv zeta.
  rewrite try_libs_none
    by (intros lib Hlib; apply Hfail; [now left | exact Hlib]).
  destruct IH as (Hres & Hopen & Hload).
  { intros root lib Hroot. apply Hfail. now right. }
  destruct (PassthroughServiceManager.try_paths ld iface rest) as [r' t'].
  cbn [fst snd] in *. subst r'. split; [reflexivity|].
  simpl. rewrite opendirs_ambiguity, dlopens_ambiguity, opendirs_app, dlopens_app.
  unfold load_events. rewrite opendirs_of_loads, dlopens_of_loads, Hopen, Hload.
  auto.
Qed.

(** The roots are scanned in order, without a gap, each at most once; all of
    them when nothing loads. *)
Lemma try_paths_scans_prefix (iface : FQName.t) (paths : list string) :
  exists k,
    opendirs (snd (PassthroughServiceManager.try_paths ld iface paths)) = firstn k paths /\
    k <= List.length paths /\
    (paths <> [] -> 1 <= k) /\
    (fst (PassthroughServiceManager.try_paths ld iface paths) = None ->
     k = List.length paths).
Proof.
  induction paths as [|path rest IH].
  - exists 0. repeat split; auto. intros H. now contradiction H.
  - rewrite try_paths_round. cbv zeta.
    destruct (try_libs_events path (candidates ld iface path)) as [_ Hop].
    destruct (PassthroughServiceManager.try_libs ld path (candidates ld iface path))
      as [[found|] t]; cbn [snd] in Hop.
    + exists 1. cbn [fst snd]. simpl opendirs. rewrite opendirs_ambiguity, Hop.
      repeat split; simpl; try lia. discriminate.
    + destruct IH as (k & Hk & Hle & _ & Hall).
      destruct (PassthroughServiceManager.try_paths ld iface rest) as [r' t'].
      cbn [fst snd] in *. exists (S k).
      simpl opendirs. rewrite opendirs_ambiguity, opendirs_app, Hop, Hk.
      repeat split; simpl; try lia. intros Hr. rewrite (Hall Hr). reflexivity.
Qed.

End GetFacts.

Section GetRuns.
Variable ld : Loader.
Variable mkFQName : string -> FQName.t.
Variables ODM VENDOR SYSTEM : string.

(** The two ways in which the code from beginLookup on ends. *)
Lemma beginLookup_cases (iface : FQName.t) (name : string) (h : LibHandle)
      (library : string) :
  let sym := ("HIDL_FETCH_" ++ FQName.name iface)%string in
  (dlsym ld h sym = None /\
   PassthroughServiceManager.beginLookup ld iface name h library
   = (None, [EvDlsym h sym;
             EvLog ERROR ("Passthrough lookup opened " ++ library ++
                          " but could not find symbol " ++ sym)%string])) \/
  (exists generator,
     dlsym ld h sym = Some generator /\
     PassthroughServiceManager.beginLookup ld iface name h library
     = (generator name, [EvDlsym h sym; EvInvoke h sym name])).
Proof.
  cbv zeta. unfold PassthroughServiceManager.beginLookup, bind, emit, LOG, emit, ret.
  destruct (dlsym ld h ("HIDL_FETCH_" ++ FQName.name iface)%string) as [generator|].
  - right. exists generator. auto.
  - left. auto.
Qed.

(** The three ways in which get runs. *)
Lemma get_cases (fqName name : string) :
  let iface := mkFQName fqName in
  let res := PassthroughServiceManager.get ld mkFQName ODM VENDOR SYSTEM fqName name in
  let loops := PassthroughServiceManager.try_paths ld iface [ODM; VENDOR; SYSTEM] in
  (negb (FQName.isValid iface) || negb (FQName.isFullyQualified iface)
   || FQName.isIdentifier iface = true /\
   res = (None, [EvLog ERROR ("Invalid interface name passthrough lookup: " ++ fqName)%string]))
  \/
  (FQName.isValid iface = true /\ FQName.isFullyQualified iface = true /\
   FQName.isIdentifier iface = false /\
   ((fst loops = None /\ res = (None, snd loops)) \/
    (exists h lib,
       fst loops = Some (h, lib) /\
       res = (fst (PassthroughServiceManager.beginLookup ld iface name h lib),
              snd loops
              ++ snd (PassthroughServiceManager.beginLookup ld iface name h lib))))).
Proof.
  cbv zeta.
  destruct (negb (FQName.isValid (mkFQName fqName))
            || negb (FQName.isFullyQualified (mkFQName fqName))
            || FQName.isIdentifier (mkFQName fqName)) eqn:Hguard.
  - left. split; [reflexivity|].
    unfold PassthroughServiceManager.get. rewrite Hguard. reflexivity.
  - right.
    apply orb_false_iff in Hguard. destruct Hguard as [Hguard Hi].
    apply orb_false_iff in Hguard. destruct Hguard as [Hv Hq].
    apply negb_false_iff in Hv. apply negb_false_iff in Hq.
    repeat split; auto.
    rewrite (get_valid ld mkFQName ODM VENDOR SYSTEM fqName name Hv Hq Hi).
    unfold PassthroughServiceManager.hal_library_paths.
    destruct (PassthroughServiceManager.try_paths ld (mkFQName fqName)
                [ODM; VENDOR; SYSTEM]) as [[[h lib]|] t]; cbn [fst snd].
    + right. exists h, lib. split; [reflexivity|].
      destruct (PassthroughServiceManager.beginLookup ld (mkFQName fqName) name h lib).
      reflexivity.
    + left. auto.
Qed.


End GetRuns.

(** X5. In every run of get the roots that are scanned form an initial
    segment of ODM, vendor, system, each scanned once and in this order; the
    segment is empty exactly when the name is rejected. *)
Theorem get_scans_roots_in_priority_order
  (ld : Loader) (mkFQName : string -> FQName.t)
  (ODM VENDOR SYSTEM fqName name : string) :
  let iface := mkFQName fqName in
  exists k,
    k <= 3 /\
    opendirs (snd (PassthroughServiceManager.get ld mkFQName ODM VENDOR SYSTEM fqName name))
    = firstn k [ODM; VENDOR; SYSTEM] /\
    (k = 0 <->
     negb (FQName.isValid iface) || negb (FQName.isFullyQualified iface)
     || FQName.isIdentifier iface = true).
Proof.
  cbv zeta.
  destruct (get_cases ld mkFQName ODM VENDOR SYSTEM fqName name)
    as [[Hbad ->] | (Hv & Hq & Hi & Hrun)].
  - exists 0. repeat split; auto.
  - destruct (try_paths_scans_prefix ld (mkFQName fqName) [ODM; VENDOR; SYSTEM])
      as (k & Hk & Hle & Hpos & _).
    assert (H1 : 1 <= k) by (apply Hpos; discriminate).
    exists k. split; [exact Hle|]. split.
    + destruct Hrun as [[_ ->] | (h & lib & _ & ->)]; cbn [snd]; [exact Hk|].
      rewrite opendirs_app, Hk.
      rewrite (proj1 (beginLookup_trace ld (mkFQName fqName) name h lib)).
      apply app_nil_r.
    + rewrite Hv, Hq, Hi. simpl. split; [lia | discriminate].
Qed.

(** X6. For an accepted name, when no candidate of any of the three roots
    loads, get returns absent after scanning all three roots in order and
    trying every candidate, root by root; the run consists of scans, warnings
    and loads only, so that nothing is reported as an error, no symbol is
    looked up and no factory is called. *)
Theorem get_absent_when_nothing_loads
  (ld : Loader) (mkFQName : string -> FQName.t)
  (ODM VENDOR SYSTEM fqName name : string) :
  let iface := mkFQName fqName in
  FQName.isValid iface = true ->
  FQName.isFullyQualified iface = true ->
  FQName.isIdentifier iface = false ->
  (forall root lib,
     In root [ODM; VENDOR; SYSTEM] -> In lib (candidates ld iface root) ->
     dlopen ld (root ++ lib)%string = None) ->
  let res := PassthroughServiceManager.get ld mkFQName ODM VENDOR SYSTEM fqName name in
  fst res = None /\
  opendirs (snd res) = [ODM; VENDOR; SYSTEM] /\
  dlopens (snd res)
  = flat_map (fun p => map (String.append p) (candidates ld iface p)) [ODM; VENDOR; SYSTEM] /\
  forallb is_search_event (snd res) = true.
Proof.
  cbv zeta. intros Hv Hq Hi Hfail.
  destruct (try_paths_exhausted ld (mkFQName fqName) [ODM; VENDOR; SYSTEM] Hfail)
    as (Hres & Hopen & Hload).
  destruct (get_cases ld mkFQName ODM VENDOR SYSTEM fqName name)
    as [[Hbad _] | (_ & _ & _ & [[_ ->] | (h & lib & Hsome & _)])].
  - rewrite Hv, Hq, Hi in Hbad. discriminate.
  - cbn [fst snd]. repeat split; auto. apply try_paths_events.
  - rewrite Hres in Hsome. discriminate.
Qed.

Lemma get_absent_when_nothing_loads_witness :
  fst (Device.get "android.hardware.baz@1.0::IBaz" "default") = None /\
  opendirs (snd (Device.get "android.hardware.baz@1.0::IBaz" "default"))
  = [Device.ODM; Device.VENDOR; Device.SYSTEM].
Proof.
  assert (Hfail : forall root lib,
             In root [Device.ODM; Device.VENDOR; Device.SYSTEM] ->
             In lib (candidates Device.loader
                       (Device.mkFQName "android.hardware.baz@1.0::IBaz") root) ->
             dlopen Device.loader (root ++ lib)%string = None).
  { intros root lib [<- | [<- | [<- | []]]]; vm_compute; intros H;
      repeat (destruct H as [<- | H]; [reflexivity|]); destruct H. }
  destruct (get_absent_when_nothing_loads
              Device.loader Device.mkFQName Device.ODM Device.VENDOR Device.SYSTEM
              "android.hardware.baz@1.0::IBaz" "default"
              eq_refl eq_refl eq_refl Hfail) as (Hres & Hopen & _).
  split; [exact Hres | exact Hopen].
Defined.

(** X7. get returns a service only when everything went well: the name was
    accepted, a candidate of one of the three roots loaded, the loaded
    library has the symbol HIDL_FETCH_<interface name>, and the service is
    what that factory returns for the instance name. *)
Theorem get_service_comes_from_a_factory
  (ld : Loader) (mkFQName : string -> FQName.t)
  (ODM VENDOR SYSTEM fqName name : string) (service : IBase) :
  let iface := mkFQName fqName in
  fst (PassthroughServiceManager.get ld mkFQName ODM VENDOR SYSTEM fqName name)
  = Some service ->
  FQName.isValid iface = true /\ FQName.isFullyQualified iface = true /\
  FQName.isIdentifier iface = false /\
  exists root lib h generator,
    In root [ODM; VENDOR; SYSTEM] /\
    In lib (candidates ld iface root) /\
    dlopen ld (root ++ lib)%string = Some h /\
    dlsym ld h ("HIDL_FETCH_" ++ FQName.name iface)%string = Some generator /\
    generator name = Some service.
Proof.
  cbv zeta. intros Hres.
  destruct (get_cases ld mkFQName ODM VENDOR SYSTEM fqName name)
    as [[_ Hrun] | (Hv & Hq & Hi & [[_ Hrun] | (h & lib & Hsome & Hrun)])];
    rewrite Hrun in Hres; cbn [fst] in Hres; try discriminate.
  repeat split; auto.
  destruct (try_paths_loaded_from ld (mkFQName fqName) [ODM; VENDOR; SYSTEM] h lib Hsome)
    as (root & Hroot & Hcand & Hok).
  destruct (beginLookup_cases ld (mkFQName fqName) name h lib)
    as [[_ Hb] | (generator & Hsym & Hb)];
    rewrite Hb in Hres; cbn [fst] in Hres; [discriminate|].
  exists root, lib, h, generator. auto.
Qed.

Lemma get_service_comes_from_a_factory_witness :
  exists root lib h generator,
    In root [Device.ODM; Device.VENDOR; Device.SYSTEM] /\
    In lib (candidates Device.loader
              (Device.mkFQName "android.hardware.foo@1.0::IFoo") root) /\
    dlopen Device.loader (root ++ lib)%string = Some h /\
    dlsym Device.loader h "HIDL_FETCH_IFoo" = Some generator /\
    generator "default" = Some 101.
Proof.
  apply (get_service_comes_from_a_factory
           Device.loader Device.mkFQName Device.ODM Device.VENDOR Device.SYSTEM
           "android.hardware.foo@1.0::IFoo" "default" 101 eq_refl).
Defined.

(** X8. Every load that get attempts, in any run, is of a path root ++ lib
    where root is one of the three roots and lib is the name of an entry of
    the directory root that starts with <package>@<version>-impl and ends with
    .so; nothing else is ever handed to the loader. *)
Theorem get_loads_only_matching_entries
  (ld : Loader) (mkFQName : string -> FQName.t)
  (ODM VENDOR SYSTEM fqName name : string) (p : string) :
  let iface := mkFQName fqName in
  In p (dlopens (snd (PassthroughServiceManager.get
                        ld mkFQName ODM VENDOR SYSTEM fqName name))) ->
  exists root lib entries,
    In root [ODM; VENDOR; SYSTEM] /\
    p = (root ++ lib)%string /\
    opendir ld root = Some entries /\
    (exists dp, In dp entries /\ d_name dp = lib) /\
    (exists rest, lib = ((FQName.getPackageAndVersion iface ++ "-impl") ++ rest)%string) /\
    (exists front, lib = (front ++ ".so")%string).
Proof.
  cbv zeta. intros Hp.
  assert (Hloop : In p (dlopens (snd (PassthroughServiceManager.try_paths
                                        ld (mkFQName fqName) [ODM; VENDOR; SYSTEM])))).
  { destruct (get_cases ld mkFQName ODM VENDOR SYSTEM fqName name)
      as [[_ Hrun] | (_ & _ & _ & [[_ Hrun] | (h & lib & _ & Hrun)])];
      rewrite Hrun in Hp; cbn [snd] in Hp.
    - destruct Hp.
    - exact Hp.
    - rewrite dlopens_app in Hp.
      rewrite (proj2 (beginLookup_trace ld (mkFQName fqName) name h lib)) in Hp.
      now rewrite app_nil_r in Hp. }
  destruct (try_paths_loads ld (mkFQName fqName) [ODM; VENDOR; SYSTEM] p Hloop)
    as (root & lib & Hroot & Hcand & ->).
  apply candidates_In in Hcand. destruct Hcand as (entries & Hopen & Hentry & Hpre & Hsuf).
  exists root, lib, entries.
  split; [exact Hroot|]. split; [reflexivity|]. split; [exact Hopen|].
  split; [exact Hentry|]. split; [exact Hpre | exact Hsuf].
Qed.

Lemma get_loads_only_matching_entries_witness :
  exists root lib entries,
    In root [Device.ODM; Device.VENDOR; Device.SYSTEM] /\
    "/odm/lib/hw/android.hardware.foo@1.0-impl-broken.so" = (root ++ lib)%string /\
    opendir Device.loader root = Some entries /\
    (exists dp, In dp entries /\ d_name dp = lib) /\
    (exists rest, lib = (("android.hardware.foo@1.0" ++ "-impl") ++ rest)%string) /\
    (exists front, lib = (front ++ ".so")%string).
Proof.
  apply (get_loads_only_matching_entries
           Device.loader Device.mkFQName Device.ODM Device.VENDOR Device.SYSTEM
           "android.hardware.foo@1.0::IFoo" "default"
           "/odm/lib/hw/android.hardware.foo@1.0-impl-broken.so").
  left. reflexivity.
Defined.

(** ** PassthroughServiceManager::get: warnings, the instance name, the factory *)

Section GetWarnings.
Variable ld : Loader.

Lemma warning_In (b : bool) (libs : list string) (m : string) (t : Trace) :
  In (EvLog WARNING m) ((if b then [ambiguity_warning libs] else []) ++ t) <->
  (b = true /\ EvLog WARNING m = ambiguity_warning libs) \/ In (EvLog WARNING m) t.
Proof.
  destruct b; simpl.
  - split.
    + intros [H | H]; [left; split; [reflexivity | now symmetry] | now right].
    + intros [[_ H] | H]; [left; now symmetry | now right].
  - split; [now right | intros [[H _] | H]; [discriminate | exact H]].
Qed.

Lemma try_libs_no_log (path : string) (libs : list string) (sev : Severity) (m : string) :
  ~ In (EvLog sev m) (snd (PassthroughServiceManager.try_libs ld path libs)).
Proof.
  pose proof (try_libs_char ld path libs) as Hchar.
  assert (Hloads : forall l, ~ In (EvLog sev m) (load_events path l)).
  { intros l Hin. unfold load_events in Hin. apply in_map_iff in Hin.
    destruct Hin as (x & Hx & _). discriminate. }
  destruct (PassthroughServiceManager.try_libs ld path libs) as [[[h lib]|] t];
    cbn [snd].
  - destruct Hchar as (l1 & l2 & _ & _ & _ & ->). apply Hloads.
  - destruct Hchar as [-> _]. apply Hloads.
Qed.

(** The loops warn about a root exactly when they scanned it and it has more
    than one candidate. *)
Lemma try_paths_warnings (iface : FQName.t) (paths : list string) (m : string) :
  In (EvLog WARNING m) (snd (PassthroughServiceManager.try_paths ld iface paths)) <->
  exists root,
    In root (opendirs (snd (PassthroughServiceManager.try_paths ld iface paths))) /\
    1 < List.length (candidates ld iface root) /\
    EvLog WARNING m = ambiguity_warning (candidates ld iface root).
Proof.
  induction paths as [|path rest IH].
  - simpl. split; [intros [] | intros (root & [] & _)].
  - rewrite try_paths_round. cbv zeta.
    pose proof (try_libs_no_log path (candidates ld iface path) WARNING m) as Hnolog.
    destruct (try_libs_events ld path (candidates ld iface path)) as [_ Hop].
    destruct (PassthroughServiceManager.try_libs ld path (candidates ld iface path))
      as [[found|] t]; cbn [snd] in Hnolog, Hop.
    + cbn [snd]. simpl opendirs. rewrite opendirs_ambiguity, Hop.
      split.
      * intros [H | H]; [discriminate|].
        apply warning_In in H. destruct H as [[Hb Hm] | H]; [|contradiction].
        exists path. split; [now left|]. split; [now apply Nat.ltb_lt | exact Hm].
      * intros (root & [<- | []] & Hlen & Hm).
        right. apply warning_In. left. split; [now apply Nat.ltb_lt | exact Hm].
    + destruct (PassthroughServiceManager.try_paths ld iface rest) as [r' t'].
      cbn [snd] in *. simpl opendirs.
      rewrite opendirs_ambiguity, opendirs_app, Hop. cbn [app].
      split.
      * intros [H | H]; [discriminate|].
        apply warning_In in H. destruct H as [[Hb Hm] | H].
        -- exists path. split; [now left|].
           split; [now apply Nat.ltb_lt | exact Hm].
        -- apply in_app_iff in H. destruct H as [H | H]; [contradiction|].
           apply IH in H. destruct H as (root & Hroot & Hlen & Hm).
           exists root. split; [now right | auto].
      * intros (root & [<- | Hroot] & Hlen & Hm); right; apply warning_In.
        -- left. split; [now apply Nat.ltb_lt | exact Hm].
        -- right. apply in_app_iff. right. apply IH. exists root. auto.
Qed.

End GetWarnings.

(** X9. In every run of get, a warning is written exactly for the roots that
    were scanned and hold more than one candidate, and it lists the
    candidates of that root; a root with one candidate or none, or a root the
    search did not reach, gives no warning. *)
Theorem get_warns_exactly_about_ambiguous_roots
  (ld : Loader) (mkFQName : string -> FQName.t)
  (ODM VENDOR SYSTEM fqName name : string) (m : string) :
  let iface := mkFQName fqName in
  let res := PassthroughServiceManager.get ld mkFQName ODM VENDOR SYSTEM fqName name in
  In (EvLog WARNING m) (snd res) <->
  exists root,
    In root (opendirs (snd res)) /\
    1 < List.length (candidates ld iface root) /\
    EvLog WARNING m = ambiguity_warning (candidates ld iface root).
Proof.
  cbv zeta.
  pose proof (try_paths_warnings ld (mkFQName fqName) [ODM; VENDOR; SYSTEM] m) as Hloops.
  destruct (get_cases ld mkFQName ODM VENDOR SYSTEM fqName name)
    as [[_ ->] | (_ & _ & _ & [[_ ->] | (h & lib & _ & ->)])]; cbn [snd].
  - simpl. split; [intros [H | []]; discriminate | intros (root & [] & _)].
  - exact Hloops.
  - rewrite opendirs_app, in_app_iff.
    rewrite (proj1 (beginLookup_trace ld (mkFQName fqName) name h lib)), app_nil_r.
    rewrite <- Hloops. split; [|now left].
    intros [H | H]; [exact H|].
    destruct (beginLookup_cases ld (mkFQName fqName) name h lib)
      as [[_ Hb] | (generator & _ & Hb)]; rewrite Hb in H; cbn [snd] in H;
      destruct H as [H | [H | []]]; discriminate.
Qed.

(** X10. The instance name plays no part in the search: two runs of get on
    the same interface name with different instance names scan the same
    roots, attempt the same loads and, the call of the factory apart, perform
    the same events. *)
Theorem get_search_ignores_instance_name
  (ld : Loader) (mkFQName : string -> FQName.t)
  (ODM VENDOR SYSTEM fqName name1 name2 : string) :
  let res1 := PassthroughServiceManager.get ld mkFQName ODM VENDOR SYSTEM fqName name1 in
  let res2 := PassthroughServiceManager.get ld mkFQName ODM VENDOR SYSTEM fqName name2 in
  opendirs (snd res1) = opendirs (snd res2) /\
  dlopens (snd res1) = dlopens (snd res2) /\
  filter (fun e => negb (is_invoke e)) (snd res1)
  = filter (fun e => negb (is_invoke e)) (snd res2).
Proof.
  cbv zeta.
  destruct (get_cases ld mkFQName ODM VENDOR SYSTEM fqName name1)
    as [[Hbad1 ->] | (Hv & Hq & Hi & Hrun1)];
    destruct (get_cases ld mkFQName ODM VENDOR SYSTEM fqName name2)
      as [[Hbad2 ->] | (Hv2 & Hq2 & Hi2 & Hrun2)].
  - auto.
  - rewrite Hv2, Hq2, Hi2 in Hbad1. discriminate.
  - rewrite Hv, Hq, Hi in Hbad2. discriminate.
  - destruct Hrun1 as [[Hnone ->] | (h & lib & Hsome & ->)];
      destruct Hrun2 as [[Hnone2 ->] | (h2 & lib2 & Hsome2 & ->)]; cbn [snd].
    + auto.
    + rewrite Hnone in Hsome2. discriminate.
    + rewrite Hnone2 in Hsome. discriminate.
    + rewrite Hsome in Hsome2. inversion Hsome2; subst h2 lib2.
      rewrite !opendirs_app, !dlopens_app, !filter_app.
      destruct (beginLookup_trace ld (mkFQName fqName) name1 h lib) as [-> ->].
      destruct (beginLookup_trace ld (mkFQName fqName) name2 h lib) as [-> ->].
      repeat split. f_equal.
      destruct (beginLookup_cases ld (mkFQName fqName) name1 h lib)
        as [[Hs1 ->] | (g1 & Hs1 & ->)];
        destruct (beginLookup_cases ld (mkFQName fqName) name2 h lib)
          as [[Hs2 ->] | (g2 & Hs2 & ->)]; try reflexivity; congruence.
Qed.



(** ** Waiter::wait on any waiter *)

(** X12. wait() on any waiter and under any schedule: when it returns, the
    waiter is registered and the schedule splits into what was consumed while
    asleep and what remains, with one sleep per consumed event; a waiter that
    was registered already returns at once, unchanged, consuming nothing; one
    that was not returns on the first notification of the schedule, which is
    the last event it consumes.  When it does not return, the waiter was not
    registered, is unchanged, the schedule had no notification, and the
    thread went back to sleep after every event of it. *)
Theorem wait_returns_exactly_when_registered
  (w : Waiter.t) (sched : list Waiter.SchedEvent) :
  let res := Waiter.wait w sched in
  match fst res with
  | Waiter.WaitReturned w' remaining =>
      Waiter.mRegistered w' = true /\
      exists consumed,
        sched = consumed ++ remaining /\
        Waiter.sleeps (snd res) = List.length consumed /\
        (Waiter.mRegistered w = true -> consumed = [] /\ w' = w) /\
        (Waiter.mRegistered w = false ->
         exists pre fqName name preexisting,
           consumed = pre ++ [Waiter.Notification fqName name preexisting] /\
           existsb Waiter.is_notification pre = false)
  | Waiter.WaitBlocked w' =>
      Waiter.mRegistered w = false /\ w' = w /\
      existsb Waiter.is_notification sched = false /\
      Waiter.sleeps (snd res) = S (List.length sched)
  end.
Proof.
  cbv zeta. destruct w as [[|]].
  - rewrite (wait_registered {| Waiter.mRegistered := true |} sched eq_refl).
    cbn [fst snd]. split; [reflexivity|]. exists []. repeat split; auto.
    discriminate.
  - change {| Waiter.mRegistered := false |} with Waiter.new.
    destruct (existsb Waiter.is_notification sched) eqn:Hsched.
    + destruct (first_notification sched Hsched) as (pre & a & b & c & post & -> & Hpre).
      rewrite (wait_notified pre a b c post Hpre). cbn [fst snd].
      split; [reflexivity|].
      exists (pre ++ [Waiter.Notification a b c]).
      split; [now rewrite <- app_assoc|]. split; [|split].
      * change (Waiter.sleeps ([EvLock mMutex]
                               ++ repeat EvCondWait (S (List.length pre))
                               ++ [EvLock mMutex; EvUnlock mMutex; EvNotifyOne;
                                   EvUnlock mMutex])
                = List.length (pre ++ [Waiter.Notification a b c])).
        rewrite !sleeps_app, sleeps_repeat, length_app.
        change (Waiter.sleeps [EvLock mMutex]) with 0.
        change (Waiter.sleeps [EvLock mMutex; EvUnlock mMutex; EvNotifyOne;
                               EvUnlock mMutex]) with 0.
        simpl. lia.
      * discriminate.
      * intros _. exists pre, a, b, c. auto.
    + rewrite (wait_blocked sched Hsched). cbn [fst snd].
      repeat split.
      change (Waiter.sleeps ([EvLock mMutex] ++ repeat EvCondWait (S (List.length sched)))
              = S (List.length sched)).
      rewrite sleeps_app, sleeps_repeat. reflexivity.
Qed.

(** ** waitForHwService: the registration *)

Section WaitFacts.







Lemma waitForHwService_without_manager (tr : Transport) (interface instanceName : string)
      (fuel : nat) (g : option RegistryHandle) (before during : list Waiter.SchedEvent)
      (g' : option RegistryHandle) (t : Trace) :
  defaultServiceManager tr fuel g = Some ((None, g'), t) ->
  waitForHwService tr interface instanceName fuel g before during
  = Some ((None, g'), t ++ [EvLog ERROR "Could not get default service manager."]).
Proof. intros Hdsm. unfold waitForHwService. rewrite Hdsm. reflexivity. Qed.


End WaitFacts.



(** X14. On a host whose /dev/hwbinder is not accessible, with nothing
    cached, waitForHwService comes back at once whatever the names, the
    number of iterations allowed and the schedule: it probes, reports that
    there is no service manager, and neither registers nor waits. *)
Theorem waitForHwService_gives_up_without_hwbinder
  (tr : Transport) (interface instanceName : string) (fuel : nat)
  (before during : list Waiter.SchedEvent) :
  access tr "/dev/hwbinder" = false ->
  waitForHwService tr interface instanceName fuel None before during
  = Some ((None, None),
          [EvAccess "/dev/hwbinder";
           EvLog ERROR "Could not get default service manager."]).
Proof.
  intros Hacc.
  rewrite (waitForHwService_without_manager tr interface instanceName fuel None
             before during None [EvAccess "/dev/hwbinder"]
             (defaultServiceManager_probe_failed tr fuel Hacc)).
  reflexivity.
Qed.

Lemma waitForHwService_gives_up_without_hwbinder_witness :
  waitForHwService Device.no_hwbinder "android.hardware.foo@1.0::IFoo" "default" 0 None
                   [] []
  = Some ((None, None),
          [EvAccess "/dev/hwbinder";
           EvLog ERROR "Could not get default service manager."]).
Proof.
  apply (waitForHwService_gives_up_without_hwbinder
           Device.no_hwbinder "android.hardware.foo@1.0::IFoo" "default" 0 [] []).
  reflexivity.
Defined.
